(** * The chat client of texttosql ([frontend/src/App.tsx])

    A shallow embedding of the React component [App]: its four pieces of
    state, the two handlers [handleSendMessage] and [clearChat], the mount
    effect that mints the session identifier, and the rendered view.  The
    asynchronous handler is split at its [await]: the part that runs when the
    form is submitted, and the part that runs when the request settles.

    JavaScript strings are sequences of UTF-16 code units.  The values that
    [response.json()] produces are JSON values; [undefined] only arises from
    reading a property that is not there and is modelled by [None]. *)

From Stdlib Require Import List ZArith NArith Bool Lia String Ascii.
From Stdlib Require Import DecimalString DecimalZ DecimalPos Sorted.
Import ListNotations.
Local Open Scope N_scope.
Local Set Warnings "-register-all".

(* ================================================================== *)
(** ** JavaScript strings *)
(* ================================================================== *)

Definition code_unit := N.
Definition jsstring := list code_unit.

(** A literal of the source, as code units. *)
Definition str (s : string) : jsstring :=
  map N_of_ascii (list_ascii_of_string s).
Arguments str : simpl never.

Fixpoint jsstring_eqb (a b : jsstring) : bool :=
  match a, b with
  | [], [] => true
  | x :: a', y :: b' => N.eqb x y && jsstring_eqb a' b'
  | _, _ => false
  end.

Definition LF : jsstring := [10].
Definition QUOTE : jsstring := [34].

(** [WhiteSpace] and [LineTerminator] of ECMAScript, the code points that
    [String.prototype.trim] strips.  All lie in the basic plane. *)
Definition is_trim_space (c : code_unit) : bool :=
  (9 <=? c) && (c <=? 13)
  || (c =? 32) || (c =? 160) || (c =? 5760)
  || (8192 <=? c) && (c <=? 8202)
  || (c =? 8232) || (c =? 8233) || (c =? 8239) || (c =? 8287)
  || (c =? 12288) || (c =? 65279).

Fixpoint trimStart (s : jsstring) : jsstring :=
  match s with
  | c :: s' => if is_trim_space c then trimStart s' else s
  | [] => []
  end.

Definition trimEnd (s : jsstring) : jsstring := rev (trimStart (rev s)).

Definition trim (s : jsstring) : jsstring := trimEnd (trimStart s).

(** [s.slice(-n)]: the last [n] code units. *)
Definition slice_last (n : nat) (s : jsstring) : jsstring :=
  skipn (List.length s - n) s.

(** [String(z)] for an integral number, as a template literal renders
    [Date.now()] and [response.status]. *)
Definition Z_toString (z : Z) : jsstring :=
  str (NilZero.string_of_int (Z.to_int z)).

(** [a] starts with [p]. *)
Fixpoint startsWith (p a : jsstring) : bool :=
  match p, a with
  | [], _ => true
  | x :: p', y :: a' => N.eqb x y && startsWith p' a'
  | _ :: _, [] => false
  end.

(** A decimal digit. *)
Definition is_digit (c : code_unit) : Prop := 48 <= c <= 57.

(* ================================================================== *)
(** ** The host: numbers and engine messages *)
(* ================================================================== *)

Inductive nullish := IsNull | IsUndefined.

(** What the program does not fix and the JavaScript engine supplies.
    [number] stands for the IEEE doubles that [JSON.parse] yields (never
    NaN); only three observations of a number are made by this program. *)
Class Host : Type := {
  number : Type;
  (** [+0] and [-0], the numbers that are falsy *)
  number_is_zero : number -> bool;
  (** what [JSON.stringify] prints for a number *)
  number_toJSON : number -> jsstring;
  (** the message of the [TypeError] thrown on reading property [p] of
      [null] or [undefined] *)
  cannot_read : nullish -> jsstring -> jsstring
}.

(* ================================================================== *)
(** ** Exceptions *)
(* ================================================================== *)

(** A thrown value as the [catch] clause observes it: an instance of
    [Error] with its message, or anything else. *)
Inductive thrown :=
| ErrorObject (message : jsstring)
| NotAnError.

Inductive completion (A : Type) : Type :=
| Normal (a : A)
| Throw (e : thrown).
Arguments Normal {A} a.
Arguments Throw {A} e.

Definition bind {A B} (c : completion A) (k : A -> completion B)
  : completion B :=
  match c with
  | Normal a => k a
  | Throw e => Throw e
  end.

Notation "x <- c ;; k" := (bind c (fun x => k))
  (at level 61, c at next level, right associativity).

Section Client.

Context {H : Host}.

(* ================================================================== *)
(** ** JSON values *)
(* ================================================================== *)

(** An object is the list of its own properties in enumeration order. *)
Inductive json : Type :=
| JNull
| JBool (b : bool)
| JNumber (n : number)
| JString (s : jsstring)
| JArray (items : list json)
| JObject (props : list (jsstring * json)).

(** A value that may be [undefined]. *)
Definition jsval := option json.

Fixpoint lookup (k : jsstring) (props : list (jsstring * json)) : jsval :=
  match props with
  | [] => None
  | (k', v) :: rest => if jsstring_eqb k k' then Some v else lookup k rest
  end.

(** Reading property [k] of a value that is neither [null] nor [undefined].
    The program reads only [type], [payload], [text] and [result]; strings,
    numbers, booleans and arrays have no property of these names, own or
    inherited, so the read gives [undefined]. *)
Definition get (v : json) (k : jsstring) : jsval :=
  match v with
  | JObject props => lookup k props
  | _ => None
  end.

(** ToBoolean. *)
Definition truthy (v : jsval) : bool :=
  match v with
  | None => false
  | Some JNull => false
  | Some (JBool b) => b
  | Some (JNumber n) => negb (number_is_zero n)
  | Some (JString s) => match s with [] => false | _ => true end
  | Some (JArray _) => true
  | Some (JObject _) => true
  end.

(** [v === 'lit'] *)
Definition strict_eq_string (v : jsval) (lit : jsstring) : bool :=
  match v with
  | Some (JString s) => jsstring_eqb s lit
  | _ => false
  end.

(* ================================================================== *)
(** ** JSON.stringify *)
(* ================================================================== *)

Definition hex_digit (d : N) : code_unit :=
  if d <? 10 then 48 + d else 87 + d.

(** [\uXXXX] with lowercase hexadecimal digits *)
Definition unicode_escape (c : code_unit) : jsstring :=
  [92; 117; hex_digit (c / 4096 mod 16); hex_digit (c / 256 mod 16);
   hex_digit (c / 16 mod 16); hex_digit (c mod 16)].

Definition is_high_surrogate (c : code_unit) : bool :=
  (55296 <=? c) && (c <=? 56319).
Definition is_low_surrogate (c : code_unit) : bool :=
  (56320 <=? c) && (c <=? 57343).

Definition quote_unit (c : code_unit) : jsstring :=
  if c =? 8 then [92; 98]
  else if c =? 9 then [92; 116]
  else if c =? 10 then [92; 110]
  else if c =? 12 then [92; 102]
  else if c =? 13 then [92; 114]
  else if c =? 34 then [92; 34]
  else if c =? 92 then [92; 92]
  else if (c <? 32) || is_high_surrogate c || is_low_surrogate c
       then unicode_escape c
  else [c].

(** The body of QuoteJSONString: a surrogate pair is copied, a lone
    surrogate is escaped. *)
Fixpoint quote_units (s : jsstring) : jsstring :=
  match s with
  | [] => []
  | c :: rest =>
      match rest with
      | d :: rest' =>
          if is_high_surrogate c && is_low_surrogate d
          then c :: d :: quote_units rest'
          else quote_unit c ++ quote_units rest
      | [] => quote_unit c
      end
  end.

Definition QuoteJSONString (s : jsstring) : jsstring :=
  QUOTE ++ quote_units s ++ QUOTE.

Fixpoint join (sep : jsstring) (parts : list jsstring) : jsstring :=
  match parts with
  | [] => []
  | [p] => p
  | p :: rest => p ++ sep ++ join sep rest
  end.

(** Wrapping of the serialized members of an array or object. *)
Definition wrap (open close gap stepback : jsstring) (partial : list jsstring)
  : jsstring :=
  match partial with
  | [] => open ++ close
  | _ =>
      match gap with
      | [] => open ++ join (str ",") partial ++ close
      | _ =>
          let indent := stepback ++ gap in
          open ++ LF ++ indent ++ join (str "," ++ LF ++ indent) partial
               ++ LF ++ stepback ++ close
      end
  end.

(** SerializeJSONProperty for a value of [JSON.parse]; [indent] is the
    indentation of the enclosing level. *)
Fixpoint serialize (gap indent : jsstring) (v : json) : jsstring :=
  match v with
  | JNull => str "null"
  | JBool true => str "true"
  | JBool false => str "false"
  | JNumber n => number_toJSON n
  | JString s => QuoteJSONString s
  | JArray items =>
      wrap (str "[") (str "]") gap indent
           (map (serialize gap (indent ++ gap)) items)
  | JObject props =>
      wrap (str "{") (str "}") gap indent
           ((fix members (ps : list (jsstring * json)) : list jsstring :=
               match ps with
               | [] => []
               | (k, x) :: ps' =>
                   (QuoteJSONString k ++ str ":"
                      ++ match gap with [] => [] | _ => str " " end
                      ++ serialize gap (indent ++ gap) x)
                   :: members ps'
               end) props)
  end.

(** [JSON.stringify(v, null, 2)] *)
Definition gap2 : jsstring := str "  ".

(** [JSON.stringify(v)] and [JSON.stringify(v, null, 2)] give [undefined]
    for [undefined]. *)
Definition JSON_stringify (gap : jsstring) (v : jsval) : option jsstring :=
  match v with
  | None => None
  | Some x => Some (serialize gap [] x)
  end.

(** A value inside a template literal. *)
Definition template (s : option jsstring) : jsstring :=
  match s with
  | None => str "undefined"
  | Some t => t
  end.

(* ================================================================== *)
(** ** Property reads and the outcome of [fetch] *)
(* ================================================================== *)

(** [v.k]: a [TypeError] on [null] and [undefined]. *)
Definition read (v : jsval) (k : jsstring) : completion jsval :=
  match v with
  | None => Throw (ErrorObject (cannot_read IsUndefined k))
  | Some JNull => Throw (ErrorObject (cannot_read IsNull k))
  | Some x => Normal (get x k)
  end.

(** [v?.k] *)
Definition read_optional (v : jsval) (k : jsstring) : jsval :=
  match v with
  | None => None
  | Some JNull => None
  | Some x => get x k
  end.

(** What [response.json()] settles to. *)
Inductive json_outcome :=
| Parsed (data : json)
| ParseRejected (e : thrown).

Record Response := {
  status : Z;
  json_result : json_outcome
}.

(** [response.ok] *)
Definition ok (r : Response) : bool :=
  (200 <=? status r)%Z && (status r <=? 299)%Z.

(** What [fetch] settles to. *)
Inductive fetch_outcome :=
| Fulfilled (response : Response)
| Rejected (e : thrown).

(* ================================================================== *)
(** ** Messages and component state *)
(* ================================================================== *)

Inductive Sender := user | bot.

(** [text] is declared a string; at run time it holds whatever the
    handler assigns, so it is a value here. *)
Record Message := {
  id : Z;
  text : jsval;
  sender : Sender;
  timestamp : Z
}.

Record state := {
  messages : list Message;
  inputText : jsstring;
  sessionId : jsstring;
  isLoading : bool
}.

(** The four [useState] initial values. *)
Definition initial_state : state :=
  {| messages := []; inputText := []; sessionId := []; isLoading := false |}.

(** The identifier minted from [Date.now()] and from
    [Math.random().toString(36).substr(2, 9)], the latter given as [rnd]. *)
Definition newSessionId (now : Z) (rnd : jsstring) : jsstring :=
  str "session-" ++ Z_toString now ++ str "-" ++ rnd.

(** The mount effect. *)
Definition mount (now : Z) (rnd : jsstring) (s : state) : state :=
  {| messages := messages s; inputText := inputText s;
     sessionId := newSessionId now rnd; isLoading := isLoading s |}.

(** [onChange] of the input. *)
Definition onChange (value : jsstring) (s : state) : state :=
  {| messages := messages s; inputText := value;
     sessionId := sessionId s; isLoading := isLoading s |}.

(* ================================================================== *)
(** ** handleSendMessage *)
(* ================================================================== *)

Record fetch_call := {
  url : jsstring;
  method : jsstring;
  headers : list (jsstring * jsstring);
  body : jsstring
}.

(** The object handed to [JSON.stringify] for the request body. *)
Definition envelope (uniqueId session currentInput : jsstring) : json :=
  JObject [ (str "type", JString (str "user_message"));
            (str "id", JString uniqueId);
            (str "session_id", JString session);
            (str "payload", JObject [ (str "text", JString currentInput) ]) ].

Definition chat_fetch (uniqueId session currentInput : jsstring) : fetch_call :=
  {| url := str "http://localhost:8000/chat";
     method := str "POST";
     headers := [ (str "Content-Type", str "application/json") ];
     body := serialize [] [] (envelope uniqueId session currentInput) |}.

(** [!inputText.trim() || isLoading] *)
Definition guard (s : state) : bool :=
  negb (truthy (Some (JString (trim (inputText s))))) || isLoading s.

(** The handler up to its [await]: the three arguments are the readings of
    [Date.now()], [new Date()] and [Date.now()] in source order. *)
Definition handleSendMessage_submit (t_id t_date t_msg : Z) (s : state)
  : state * option fetch_call :=
  if guard s then (s, None)
  else
    let userMessage :=
      {| id := t_id; text := Some (JString (inputText s));
         sender := user; timestamp := t_date |} in
    let currentInput := inputText s in
    let uniqueId := str "msg-" ++ Z_toString t_msg in
    ({| messages := messages s ++ [userMessage];
        inputText := [];
        sessionId := sessionId s;
        isLoading := true |},
     Some (chat_fetch uniqueId (sessionId s) currentInput)).

(** The three-way choice of the text shown for a parsed response. *)
Definition botText (data : json) : completion jsval :=
  ty <- read (Some data) (str "type") ;;
  if strict_eq_string ty (str "chat_reply")
     && truthy (read_optional (get data (str "payload")) (str "text"))
  then
    payload <- read (Some data) (str "payload") ;;
    read payload (str "text")
  else if strict_eq_string ty (str "result") then
    payload <- read (Some data) (str "payload") ;;
    result <- read payload (str "result") ;;
    Normal (Some (JString (str "SQL Query Result:" ++ LF
                             ++ template (JSON_stringify gap2 result))))
  else
    Normal (option_map JString (JSON_stringify gap2 (Some data))).

(** The [try] block from the point where [fetch] settles. *)
Definition try_block (o : fetch_outcome) : completion jsval :=
  response <- match o with
              | Fulfilled r => Normal r
              | Rejected e => Throw e
              end ;;
  if negb (ok response)
  then Throw (ErrorObject (str "HTTP error! status: "
                             ++ Z_toString (status response)))
  else
    data <- match json_result response with
            | Parsed d => Normal d
            | ParseRejected e => Throw e
            end ;;
    botText data.

(** The text of the [catch] clause. *)
Definition error_text (error : thrown) : jsstring :=
  str "Error: " ++ match error with
                   | ErrorObject message => message
                   | NotAnError => str "Failed to connect to bot."
                   end.

(** The message appended when the request settles; [t_now] and [t_date]
    are the readings of [Date.now()] and [new Date()] in the branch taken.
    The [catch] clause also logs the error to the console, which leaves no
    trace in the state. *)
Definition reply_message (o : fetch_outcome) (t_now t_date : Z) : Message :=
  match try_block o with
  | Normal bt =>
      {| id := (t_now + 1)%Z; text := bt; sender := bot; timestamp := t_date |}
  | Throw error =>
      {| id := (t_now + 2)%Z; text := Some (JString (error_text error));
         sender := bot; timestamp := t_date |}
  end.

(** The handler from its [await] on: [try] or [catch], then [finally]. *)
Definition handleSendMessage_settle (o : fetch_outcome) (t_now t_date : Z)
  (s : state) : state :=
  {| messages := messages s ++ [reply_message o t_now t_date];
     inputText := inputText s;
     sessionId := sessionId s;
     isLoading := false |}.

(* ================================================================== *)
(** ** clearChat *)
(* ================================================================== *)

Definition clearChat (now : Z) (rnd : jsstring) (s : state) : state :=
  {| messages := [];
     inputText := inputText s;
     sessionId := newSessionId now rnd;
     isLoading := isLoading s |}.

(* ================================================================== *)
(** ** The rendered view *)
(* ================================================================== *)

Record Bubble := {
  key : Z;
  from_user : bool;          (* selects the purple or the grey style *)
  label : jsstring;          (* YOU or BOT *)
  time : Z;                  (* shown through toLocaleTimeString *)
  content : jsval
}.

Record View := {
  session_label : jsstring;
  welcome : bool;
  bubbles : list Bubble;
  thinking : bool;
  input_value : jsstring;
  input_disabled : bool;
  placeholder : jsstring;
  send_disabled : bool;
  send_label : jsstring
}.

Definition is_user (m : Message) : bool :=
  match sender m with user => true | bot => false end.

Definition bubble (message : Message) : Bubble :=
  {| key := id message;
     from_user := is_user message;
     label := if is_user message then str "YOU" else str "BOT";
     time := timestamp message;
     content := text message |}.

(** What the function [App] returns for a state: an element tree.  The
    function itself does not fail on any state; whether React can place
    the tree on the page is said by [shown] below. *)
Definition App (s : state) : View :=
  {| session_label := slice_last 8 (sessionId s);
     welcome := Nat.eqb (List.length (messages s)) 0;
     bubbles := map bubble (messages s);
     thinking := isLoading s;
     input_value := inputText s;
     input_disabled := isLoading s;
     placeholder := if isLoading s then str "Processing..."
                    else str "Type your message...";
     send_disabled :=
       isLoading s || negb (truthy (Some (JString (trim (inputText s)))));
     send_label := if isLoading s then str "..." else str "SEND" |}.

(* ================================================================== *)
(** ** The component among its events *)
(* ================================================================== *)

(** The component state together with the requests that have been issued
    and have not settled yet.  Events are handled one at a time, and each
    handler sees the state the previous one left: React commits the updates
    of an event before the next one is dispatched.  The two continuations
    after the [await] update the list of messages through the functional
    form of [setMessages], so they act on the list as it is when the request
    settles. *)
Record world := {
  ui : state;
  inflight : list fetch_call
}.

Inductive event :=
| Change (value : jsstring)
| Submit (t_id t_date t_msg : Z)
| Settle (k : nat) (o : fetch_outcome) (t_now t_date : Z)
| Clear (t_now : Z) (rnd : jsstring).

Fixpoint remove_nth {A} (k : nat) (l : list A) : list A :=
  match l, k with
  | [], _ => []
  | _ :: l', O => l'
  | x :: l', S k' => x :: remove_nth k' l'
  end.

(** One event: the new world and the requests issued while handling it.
    [Settle k] resumes the handler that waits for the [k]-th request in
    flight; nothing happens when there is none. *)
Definition step (w : world) (e : event) : world * list fetch_call :=
  match e with
  | Change value =>
      ({| ui := onChange value (ui w); inflight := inflight w |}, [])
  | Submit t_id t_date t_msg =>
      match handleSendMessage_submit t_id t_date t_msg (ui w) with
      | (s', Some call) =>
          ({| ui := s'; inflight := inflight w ++ [call] |}, [call])
      | (s', None) => ({| ui := s'; inflight := inflight w |}, [])
      end
  | Settle k o t_now t_date =>
      match nth_error (inflight w) k with
      | Some _ =>
          ({| ui := handleSendMessage_settle o t_now t_date (ui w);
              inflight := remove_nth k (inflight w) |}, [])
      | None => (w, [])
      end
  | Clear t_now rnd =>
      ({| ui := clearChat t_now rnd (ui w); inflight := inflight w |}, [])
  end.

(** A sequence of events: the final world and all requests issued. *)
Fixpoint run (w : world) (evs : list event) : world * list fetch_call :=
  match evs with
  | [] => (w, [])
  | e :: evs' =>
      let (w1, out1) := step w e in
      let (w2, out2) := run w1 evs' in
      (w2, out1 ++ out2)
  end.

(** The world once the component is mounted: the mount effect has run on
    the initial state and nothing has been sent. *)
Definition start (now : Z) (rnd : jsstring) : world :=
  {| ui := mount now rnd initial_state; inflight := [] |}.

Definition is_clear (e : event) : bool :=
  match e with Clear _ _ => true | _ => false end.

(** No [Clear] in [evs] happens while a request is in flight. *)
Fixpoint clears_when_idle (w : world) (evs : list event) : bool :=
  match evs with
  | [] => true
  | e :: evs' =>
      (if is_clear e
       then match inflight w with [] => true | _ => false end
       else true)
      && clears_when_idle (fst (step w e)) evs'
  end.

(** [user, bot, user, bot, ...] from the start. *)
Fixpoint alternates (expect_user : bool) (l : list Message) : bool :=
  match l with
  | [] => true
  | m :: l' => Bool.eqb (is_user m) expect_user
               && alternates (negb expect_user) l'
  end.

(** The loading flag is set exactly while one request is in flight. *)
Definition one_in_flight (w : world) : Prop :=
  List.length (inflight w) = if isLoading (ui w) then 1%nat else 0%nat.

(** The list alternates from a user message on and is of even length
    exactly when nothing is loading. *)
Definition tidy (w : world) : Prop :=
  one_in_flight w
  /\ alternates true (messages (ui w)) = true
  /\ Nat.even (List.length (messages (ui w))) = negb (isLoading (ui w)).

(* ================================================================== *)
(** ** Vocabulary of the wire protocol *)
(* ================================================================== *)



(** The request failed before a parsed body was in hand: the network
    call was rejected, the status is outside 200-299, or reading the body
    as JSON was rejected. *)
Definition failed (o : fetch_outcome) : bool :=
  match o with
  | Rejected _ => true
  | Fulfilled r =>
      negb (ok r)
      || match json_result r with
         | ParseRejected _ => true
         | Parsed _ => false
         end
  end.



(* ================================================================== *)
(** ** Vocabulary for runs *)
(* ================================================================== *)

(** The string holds a code unit that [trim] does not strip. *)
Definition nonblank (s : jsstring) : bool :=
  existsb (fun c => negb (is_trim_space c)) s.

Definition is_submit (e : event) : bool :=
  match e with Submit _ _ _ => true | _ => false end.

(** The messages of the user and those of the bot. *)
Definition from_users (l : list Message) : list Message := filter is_user l.
Definition from_bot (l : list Message) : list Message :=
  filter (fun m => negb (is_user m)) l.

(** The clock readings that become message ids lie more than two apart:
    each one exceeds the previous one, starting from [last], by more than
    the offset a reply adds to its reading. *)
Fixpoint spaced (last : Z) (evs : list event) : bool :=
  match evs with
  | [] => true
  | Submit t_id _ _ :: evs' => (last + 2 <? t_id)%Z && spaced t_id evs'
  | Settle _ _ t_now _ :: evs' => (last + 2 <? t_now)%Z && spaced t_now evs'
  | _ :: evs' => spaced last evs'
  end.

(** The ids increase along the list and stay within two of [last]. *)
Definition ids_ascend (last : Z) (l : list Message) : Prop :=
  StronglySorted Z.lt (map id l)
  /\ Forall (fun m => (id m <= last + 2)%Z) l.

(** No two neighbours in the list have the same sender. *)
Definition takes_turns (l : list Message) : bool :=
  match l with
  | [] => true
  | m :: _ => alternates (is_user m) l
  end.

(** The text of a message of the user is a string that is not blank; the
    text of a message of the bot is not [undefined]. *)
Definition has_text (m : Message) : Prop :=
  if is_user m
  then exists t, text m = Some (JString t) /\ nonblank t = true
  else text m <> None.

(** Neighbours differ, and the last message is the user's exactly when a
    request is loading. *)
Definition in_turns (w : world) : Prop :=
  one_in_flight w
  /\ takes_turns (messages (ui w)) = true
  /\ forall l x, messages (ui w) = l ++ [x] -> is_user x = isLoading (ui w).

(* ================================================================== *)
(** ** From the element tree to the page *)
(* ================================================================== *)








End Client.

(* ================================================================== *)
(** ** Reading a JSON text *)
(* ================================================================== *)

(** The grammar of JSON, as [JSON.parse] and a server apply it to a text.
    It is written down to say what a text that the client shows or sends
    holds; the members of an object are kept as written. *)

Definition is_json_space (c : code_unit) : bool :=
  (c =? 32) || (c =? 9) || (c =? 10) || (c =? 13).

Fixpoint skip_space (s : jsstring) : jsstring :=
  match s with
  | c :: r => if is_json_space c then skip_space r else s
  | [] => []
  end.

(** [s] without the prefix [p]. *)
Fixpoint strip (p s : jsstring) : option jsstring :=
  match p, s with
  | [], _ => Some s
  | x :: p', y :: s' => if x =? y then strip p' s' else None
  | _ :: _, [] => None
  end.

Definition unhex (c : code_unit) : option N :=
  if (48 <=? c) && (c <=? 57) then Some (c - 48)
  else if (97 <=? c) && (c <=? 102) then Some (c - 87)
  else if (65 <=? c) && (c <=? 70) then Some (c - 55)
  else None.

Definition hex4 (a b c d : code_unit) : option code_unit :=
  match unhex a, unhex b, unhex c, unhex d with
  | Some x, Some y, Some z, Some w => Some (((x * 16 + y) * 16 + z) * 16 + w)
  | _, _, _, _ => None
  end.

(** The code unit that a two-character escape stands for. *)
Definition unescape (e : code_unit) : option code_unit :=
  if e =? 34 then Some 34
  else if e =? 92 then Some 92
  else if e =? 47 then Some 47
  else if e =? 98 then Some 8
  else if e =? 102 then Some 12
  else if e =? 110 then Some 10
  else if e =? 114 then Some 13
  else if e =? 116 then Some 9
  else None.

Definition push {A} (c : A) (r : option (list A * jsstring))
  : option (list A * jsstring) :=
  match r with
  | Some (t, rest) => Some (c :: t, rest)
  | None => None
  end.

(** A string from behind its opening quote: its code units and what
    follows the closing quote. *)
Fixpoint read_string (s : jsstring) : option (jsstring * jsstring) :=
  match s with
  | [] => None
  | c :: r =>
      if c =? 34 then Some ([], r)
      else if c =? 92 then
        match r with
        | [] => None
        | e :: r1 =>
            if e =? 117 then
              match r1 with
              | a :: b :: c' :: d :: r2 =>
                  match hex4 a b c' d with
                  | Some u => push u (read_string r2)
                  | None => None
                  end
              | _ => None
              end
            else
              match unescape e with
              | Some u => push u (read_string r1)
              | None => None
              end
        end
      else if c <? 32 then None
      else push c (read_string r)
  end.

(** How the host reads a number at the head of a text. *)
Class NumberReader (H : Host) : Type := {
  number_read : jsstring -> option (number * jsstring)
}.

Section Reader.

Context {H : Host} {R : NumberReader H}.

(** [true], [false], [null] or a number at the head of a text. *)
Definition read_atom (s : jsstring) : option (json * jsstring) :=
  match strip (str "true") s with
  | Some r => Some (JBool true, r)
  | None =>
      match strip (str "false") s with
      | Some r => Some (JBool false, r)
      | None =>
          match strip (str "null") s with
          | Some r => Some (JNull, r)
          | None =>
              match number_read s with
              | Some (n, r) => Some (JNumber n, r)
              | None => None
              end
          end
      end
  end.

(** A value at the head of a text, and what follows it.  [fuel] bounds
    the calls; a text needs no more than its length plus one. *)
Fixpoint read_value (fuel : nat) (s : jsstring) {struct fuel}
  : option (json * jsstring) :=
  match fuel with
  | O => None
  | S f =>
      match skip_space s with
      | [] => None
      | c :: r =>
          if c =? 123 then
            match skip_space r with
            | [] => None
            | d :: r' =>
                if d =? 125 then Some (JObject [], r')
                else match read_members f (d :: r') with
                     | Some (props, r'') => Some (JObject props, r'')
                     | None => None
                     end
            end
          else if c =? 91 then
            match skip_space r with
            | [] => None
            | d :: r' =>
                if d =? 93 then Some (JArray [], r')
                else match read_elements f (d :: r') with
                     | Some (items, r'') => Some (JArray items, r'')
                     | None => None
                     end
            end
          else if c =? 34 then
            match read_string r with
            | Some (t, r') => Some (JString t, r')
            | None => None
            end
          else read_atom (c :: r)
      end
  end

with read_elements (fuel : nat) (s : jsstring) {struct fuel}
  : option (list json * jsstring) :=
  match fuel with
  | O => None
  | S f =>
      match read_value f s with
      | None => None
      | Some (v, r) =>
          match skip_space r with
          | [] => None
          | c :: r' =>
              if c =? 44 then push v (read_elements f r')
              else if c =? 93 then Some ([v], r')
              else None
          end
      end
  end

with read_members (fuel : nat) (s : jsstring) {struct fuel}
  : option (list (jsstring * json) * jsstring) :=
  match fuel with
  | O => None
  | S f =>
      match skip_space s with
      | [] => None
      | q :: r =>
          if q =? 34 then
            match read_string r with
            | None => None
            | Some (k, r1) =>
                match skip_space r1 with
                | [] => None
                | colon :: r2 =>
                    if colon =? 58 then
                      match read_value f r2 with
                      | None => None
                      | Some (v, r3) =>
                          match skip_space r3 with
                          | [] => None
                          | c :: r4 =>
                              if c =? 44 then push (k, v) (read_members f r4)
                              else if c =? 125 then Some ([(k, v)], r4)
                              else None
                          end
                      end
                    else None
                end
            end
          else None
      end
  end.

(** The value of a whole text: one value, with white space around it. *)
Definition JSON_parse (text : jsstring) : option json :=
  match read_value (S (List.length text)) text with
  | Some (v, rest) =>
      match skip_space rest with
      | [] => Some v
      | _ :: _ => None
      end
  | None => None
  end.

(** The white space that [JSON.stringify] puts after the opening bracket
    and after each comma, and before the closing bracket. *)
Definition lead (gap stepback : jsstring) : jsstring :=
  match gap with [] => [] | _ => LF ++ stepback ++ gap end.
Definition trail (gap stepback : jsstring) : jsstring :=
  match gap with [] => [] | _ => LF ++ stepback end.

(** What may follow a value inside a text. *)
Definition stops (rest : jsstring) : bool :=
  match rest with
  | [] => true
  | c :: _ => is_json_space c || (c =? 44) || (c =? 93) || (c =? 125)
  end.

Definition number_start (c : code_unit) : bool :=
  (48 <=? c) && (c <=? 57) || (c =? 45).

(** The number is printed as a numeral that the host reads back: not so
    for an infinite number, which is printed as [null]. *)
Definition number_reads_back (n : number) : Prop :=
  (exists c t, number_toJSON n = c :: t /\ number_start c = true)
  /\ forall rest, stops rest = true ->
       number_read (number_toJSON n ++ rest) = Some (n, rest).

(** The numbers of a value. *)
Fixpoint numbers_of (v : json) : list number :=
  match v with
  | JNumber n => [n]
  | JArray items => flat_map numbers_of items
  | JObject props => flat_map (fun kv => numbers_of (snd kv)) props
  | _ => []
  end.

Definition reads_back (v : json) : Prop :=
  Forall number_reads_back (numbers_of v).

(** The text printed for [v], at any indentation, reads back as [v]. *)
Definition prints_and_reads (v : json) : Prop :=
  forall gap indent rest fuel,
    forallb is_json_space gap = true ->
    forallb is_json_space indent = true ->
    stops rest = true ->
    (List.length (serialize gap indent v) < fuel)%nat ->
    read_value fuel (serialize gap indent v ++ rest) = Some (v, rest).


End Reader.

(* ================================================================== *)
(** ** A host to compute with *)
(* ================================================================== *)

(** Integral numbers printed in decimal, and the wording of V8 for the
    [TypeError].  Used for the concrete runs only. *)
Definition Z_host : Host :=
  {| number := Z;
     number_is_zero := Z.eqb 0;
     number_toJSON := Z_toString;
     cannot_read := fun n p =>
       str "Cannot read properties of "
         ++ match n with IsNull => str "null" | IsUndefined => str "undefined" end
         ++ str " (reading '" ++ p ++ str "')" |}.

(** Decimal digits at the head of a text, added to [acc]. *)
Fixpoint read_digits (acc : Z) (s : jsstring) : Z * jsstring :=
  match s with
  | c :: r =>
      if (48 <=? c) && (c <=? 57)
      then read_digits (acc * 10 + Z.of_N (c - 48))%Z r
      else (acc, s)
  | [] => (acc, [])
  end.

(** An integral numeral at the head of a text. *)
Definition Z_read (s : jsstring) : option (Z * jsstring) :=
  match s with
  | [] => None
  | c :: r =>
      if c =? 45 then
        match r with
        | d :: _ =>
            if (48 <=? d) && (d <=? 57)
            then let (n, rest) := read_digits 0 r in Some ((- n)%Z, rest)
            else None
        | [] => None
        end
      else if (48 <=? c) && (c <=? 57) then Some (read_digits 0 s)
      else None
  end.

(** Integral numerals, as [Z_host] prints them. *)
Definition Z_reader : NumberReader Z_host :=
  {| number_read := Z_read : jsstring -> option (@number Z_host * jsstring) |}.

(** A literal between double quotes. *)
Definition quoted (s : string) : jsstring := 34 :: str s ++ [34].

(** Responses used in the concrete runs. *)
Definition empty_reply : @json Z_host :=
  JObject [ (str "type", JString (str "chat_reply"));
            (str "payload", JObject [ (str "text", JString []) ]) ].

Definition hello_reply : @json Z_host :=
  JObject [ (str "type", JString (str "chat_reply"));
            (str "payload", JObject [ (str "text", JString (str "hello")) ]) ].

Definition count_result : @json Z_host :=
  JObject [ (str "type", JString (str "result"));
            (str "id", JString (str "m1"));
            (str "session_id", JString (str "s1"));
            (str "payload",
             JObject [ (str "result",
                        JArray [ JObject [ (str "count", JNumber (H := Z_host) 42%Z) ] ]) ]) ].


Definition ok_hello : @fetch_outcome Z_host :=
  Fulfilled {| status := 200; json_result := Parsed hello_reply |}.

(** Type, send, and receive the answer. *)
Definition one_exchange : list (@event Z_host) :=
  [ Change (str "hi"); Submit 10 11 12; Settle 0 ok_hello 20 21 ].

(** Type and send, press CLEAR before the answer arrives. *)
Definition clear_in_flight : list (@event Z_host) :=
  [ Change (str "hi"); Submit 10 11 12; Clear 15 (str "k3j2h1g0f");
    Settle 0 ok_hello 20 21 ].

Definition first_world : @world Z_host := start 1 (str "a1b2c3d4e").

(** A reply whose text is a number. *)
Definition number_reply : @json Z_host :=
  JObject [ (str "type", JString (str "chat_reply"));
            (str "payload",
             JObject [ (str "text", JNumber (H := Z_host) 5%Z) ]) ].

(** The result of [count_result] under other identifiers, with one more
    property. *)
Definition count_result_elsewhere : @json Z_host :=
  JObject [ (str "session_id", JString (str "s2"));
            (str "type", JString (str "result"));
            (str "payload",
             JObject [ (str "result",
                        JArray [ JObject [ (str "count",
                                            JNumber (H := Z_host) 42%Z) ] ]) ]);
            (str "id", JString (str "m7"));
            (str "note", JNull) ].






(** The body of the request of [one_exchange], written out. *)
Definition hi_body : jsstring :=
  str "{" ++ quoted "type" ++ str ":" ++ quoted "user_message"
    ++ str "," ++ quoted "id" ++ str ":" ++ quoted "msg-12"
    ++ str "," ++ quoted "session_id" ++ str ":"
    ++ quoted "session-1-a1b2c3d4e"
    ++ str "," ++ quoted "payload" ++ str ":{"
    ++ quoted "text" ++ str ":" ++ quoted "hi" ++ str "}}".

Definition hi_call : fetch_call :=
  {| url := str "http://localhost:8000/chat";
     method := str "POST";
     headers := [ (str "Content-Type", str "application/json") ];
     body := hi_body |}.

(** The first world with a request in flight. *)
Definition waiting_world : @world Z_host :=
  fst (run first_world [ Change (str "hi"); Submit 10 11 12 ]).

(* ================================================================== *)
(** * Properties *)
(* ================================================================== *)

Lemma jsstring_eqb_eq (a b : jsstring) : jsstring_eqb a b = true <-> a = b.
Proof.
  revert b; induction a as [|x a IH]; intros [|y b]; simpl;
    try (split; [discriminate | congruence]); try tauto.
  rewrite andb_true_iff, N.eqb_eq, IH. split.
  - intros [-> ->]; reflexivity.
  - intros E; injection E; auto.
Qed.

Lemma jsstring_eqb_refl (a : jsstring) : jsstring_eqb a a = true.
Proof. apply jsstring_eqb_eq; reflexivity. Qed.

(* ------------------------------------------------------------------ *)
(** *** Decimal rendering and the minted identifier *)

Lemma str_String (c : ascii) (s : string) :
  str (String c s) = N_of_ascii c :: str s.
Proof. reflexivity. Qed.

Lemma str_inj (a b : string) : str a = str b -> a = b.
Proof.
  revert b; induction a as [|x a IH]; intros [|y b]; try discriminate; trivial.
  rewrite !str_String. intros E. injection E as E1 E2.
  f_equal; [|apply IH, E2].
  rewrite <- (ascii_N_embedding x), <- (ascii_N_embedding y), E1. reflexivity.
Qed.

Lemma uint_digits (d : Decimal.uint) :
  Forall is_digit (str (NilEmpty.string_of_uint d)).
Proof.
  induction d; simpl NilEmpty.string_of_uint;
    try rewrite str_String; constructor; trivial;
    unfold is_digit; simpl; lia.
Qed.

Lemma Z_toString_digits (z : Z) : (0 <= z)%Z -> Forall is_digit (Z_toString z).
Proof.
  unfold Z_toString. destruct z as [|p|p]; intros Hz; [| |lia].
  - repeat constructor; unfold is_digit; simpl; lia.
  - simpl Z.to_int. simpl NilZero.string_of_int. unfold NilZero.string_of_uint.
    pose proof (Unsigned.to_uint_nonnil p) as N.
    pose proof (uint_digits (Pos.to_uint p)) as D.
    destruct (Pos.to_uint p); [congruence | exact D ..].
Qed.

Lemma Z_toString_inj (a b : Z) : Z_toString a = Z_toString b -> a = b.
Proof.
  unfold Z_toString. intros E. apply str_inj in E.
  assert (N : forall z, Z.to_int z <> Decimal.Pos Decimal.Nil
                        /\ Z.to_int z <> Decimal.Neg Decimal.Nil).
  { intros [|p|p]; simpl; split; try discriminate;
      intros F; injection F; apply Unsigned.to_uint_nonnil. }
  pose proof (NilZero.isi _ (proj1 (N a)) (proj2 (N a))) as Ia.
  pose proof (NilZero.isi _ (proj1 (N b)) (proj2 (N b))) as Ib.
  rewrite E, Ib in Ia. injection Ia as Ia.
  rewrite <- (DecimalZ.of_to a), <- (DecimalZ.of_to b), Ia. reflexivity.
Qed.

(** Two strings cut at their first hyphen. *)
Lemma cut_at_hyphen (a a' r r' : jsstring) :
  Forall is_digit a -> Forall is_digit a' ->
  a ++ 45 :: r = a' ++ 45 :: r' -> a = a' /\ r = r'.
Proof.
  intros Da. revert a'. induction Da as [|x a Dx Da IH]; intros a' Da' E.
  - destruct Da' as [|y a' Dy _]; simpl in E.
    + injection E as <-. split; reflexivity.
    + injection E as E _. unfold is_digit in Dy. lia.
  - destruct Da' as [|y a' Dy Da']; simpl in E.
    + injection E as E _. unfold is_digit in Dx. lia.
    + injection E as <- E. destruct (IH _ Da' E) as [-> ->].
      split; reflexivity.
Qed.

Lemma newSessionId_inj (now now' : Z) (rnd rnd' : jsstring) :
  (0 <= now)%Z -> (0 <= now')%Z ->
  newSessionId now rnd = newSessionId now' rnd' ->
  now = now' /\ rnd = rnd'.
Proof.
  intros Hn Hn' E. unfold newSessionId in E.
  apply app_inv_head in E.
  change (str "-" ++ rnd) with (45 :: rnd) in E.
  change (str "-" ++ rnd') with (45 :: rnd') in E.
  apply cut_at_hyphen in E; try (apply Z_toString_digits; assumption).
  destruct E as [E ->]. apply Z_toString_inj in E. split; [exact E | reflexivity].
Qed.

(* ------------------------------------------------------------------ *)
(** *** A quoted string reads back *)

Lemma skip_space_white (w s : jsstring) :
  forallb is_json_space w = true -> skip_space (w ++ s) = skip_space s.
Proof.
  induction w as [|c w IH]; simpl; trivial.
  intros E. apply andb_true_iff in E. destruct E as [Ec E].
  rewrite Ec. apply IH, E.
Qed.

Lemma skip_space_head (c : code_unit) (r : jsstring) :
  is_json_space c = false -> skip_space (c :: r) = c :: r.
Proof. simpl. intros ->. reflexivity. Qed.

Lemma unhex_hex_digit (d : N) : d < 16 -> unhex (hex_digit d) = Some d.
Proof.
  intros L. unfold hex_digit, unhex.
  destruct (d <? 10) eqn:E.
  - apply N.ltb_lt in E.
    replace ((48 <=? 48 + d) && (48 + d <=? 57)) with true
      by (symmetry; apply andb_true_iff; split; apply N.leb_le; lia).
    f_equal. lia.
  - apply N.ltb_ge in E.
    replace ((48 <=? 87 + d) && (87 + d <=? 57)) with false
      by (symmetry; apply andb_false_iff; right; apply N.leb_gt; lia).
    replace ((97 <=? 87 + d) && (87 + d <=? 102)) with true
      by (symmetry; apply andb_true_iff; split; apply N.leb_le; lia).
    f_equal. lia.
Qed.

Lemma hex4_unicode_escape (c : code_unit) (t : jsstring) :
  c < 65536 ->
  exists a b d e,
    unicode_escape c = [92; 117; a; b; d; e] /\ hex4 a b d e = Some c.
Proof.
  intros L. unfold unicode_escape. do 4 eexists. split; [reflexivity|].
  unfold hex4.
  rewrite !unhex_hex_digit by (apply N.mod_lt; discriminate).
  f_equal.
  pose proof (N.div_mod c 16 ltac:(discriminate)) as E0.
  pose proof (N.div_mod (c / 16) 16 ltac:(discriminate)) as E1.
  pose proof (N.div_mod (c / 256) 16 ltac:(discriminate)) as E2.
  assert (D1 : c / 16 / 16 = c / 256)
    by (rewrite N.Div0.div_div; reflexivity).
  assert (D2 : c / 256 / 16 = c / 4096)
    by (rewrite N.Div0.div_div; reflexivity).
  assert (S : c / 4096 < 16)
    by (apply N.Div0.div_lt_upper_bound; exact L).
  rewrite (N.mod_small _ _ S).
  rewrite D1 in E1. rewrite D2 in E2. lia.
Qed.

Lemma read_string_literal (c : code_unit) (t : jsstring) :
  (c =? 34) = false -> (c =? 92) = false -> (c <? 32) = false ->
  read_string (c :: t) = push c (read_string t).
Proof. intros E1 E2 E3. simpl. rewrite E1, E2, E3. reflexivity. Qed.

Lemma read_quote_unit (c : code_unit) (t : jsstring) :
  read_string (quote_unit c ++ t) = push c (read_string t).
Proof.
  unfold quote_unit.
  destruct (c =? 8) eqn:E8; [apply N.eqb_eq in E8; subst; reflexivity|].
  destruct (c =? 9) eqn:E9; [apply N.eqb_eq in E9; subst; reflexivity|].
  destruct (c =? 10) eqn:E10; [apply N.eqb_eq in E10; subst; reflexivity|].
  destruct (c =? 12) eqn:E12; [apply N.eqb_eq in E12; subst; reflexivity|].
  destruct (c =? 13) eqn:E13; [apply N.eqb_eq in E13; subst; reflexivity|].
  destruct (c =? 34) eqn:E34; [apply N.eqb_eq in E34; subst; reflexivity|].
  destruct (c =? 92) eqn:E92; [apply N.eqb_eq in E92; subst; reflexivity|].
  destruct ((c <? 32) || is_high_surrogate c || is_low_surrogate c) eqn:E.
  - assert (L : c < 65536).
    { unfold is_high_surrogate, is_low_surrogate in E.
      apply orb_true_iff in E. destruct E as [E|E].
      - apply orb_true_iff in E. destruct E as [E|E].
        + apply N.ltb_lt in E. lia.
        + apply andb_true_iff in E. destruct E as [_ E].
          apply N.leb_le in E. lia.
      - apply andb_true_iff in E. destruct E as [_ E].
        apply N.leb_le in E. lia. }
    destruct (hex4_unicode_escape c t L) as (a & b & d & e & -> & Hx).
    simpl. rewrite Hx. reflexivity.
  - apply orb_false_iff in E. destruct E as [E _].
    apply orb_false_iff in E. destruct E as [E _].
    apply read_string_literal; assumption.
Qed.

Lemma quote_units_pair (c d : code_unit) (s : jsstring) :
  quote_units (c :: d :: s)
  = if is_high_surrogate c && is_low_surrogate d
    then c :: d :: quote_units s
    else quote_unit c ++ quote_units (d :: s).
Proof. reflexivity. Qed.

Lemma read_quote_units (s : jsstring) :
  (forall rest, read_string (quote_units s ++ 34 :: rest) = Some (s, rest))
  /\ (forall c rest,
        read_string (quote_units (c :: s) ++ 34 :: rest) = Some (c :: s, rest)).
Proof.
  induction s as [|d s [IH0 IH1]].
  - split; [reflexivity|].
    intros c rest. change (quote_units [c]) with (quote_unit c).
    rewrite read_quote_unit. reflexivity.
  - split; [apply IH1|].
    intros c rest. rewrite quote_units_pair.
    destruct (is_high_surrogate c && is_low_surrogate d) eqn:P.
    + apply andb_true_iff in P. destruct P as [Pc Pd].
      unfold is_high_surrogate in Pc. unfold is_low_surrogate in Pd.
      apply andb_true_iff in Pc. destruct Pc as [Pc _]. apply N.leb_le in Pc.
      apply andb_true_iff in Pd. destruct Pd as [Pd _]. apply N.leb_le in Pd.
      cbn [app].
      rewrite (read_string_literal c)
        by (first [apply N.eqb_neq | apply N.ltb_ge]; lia).
      rewrite (read_string_literal d)
        by (first [apply N.eqb_neq | apply N.ltb_ge]; lia).
      rewrite IH0. reflexivity.
    + rewrite <- app_assoc, read_quote_unit, IH1. reflexivity.
Qed.

Lemma read_quoted (s rest : jsstring) :
  read_string (quote_units s ++ 34 :: rest) = Some (s, rest).
Proof. apply read_quote_units. Qed.

(* ------------------------------------------------------------------ *)
(** *** A printed value reads back *)

Section ReaderProperties.

Context {H : Host} {R : NumberReader H}.

Lemma json_induction (P : json -> Prop)
  (Hnull : P JNull)
  (Hbool : forall b, P (JBool b))
  (Hnum : forall n, P (JNumber n))
  (Hstr : forall s, P (JString s))
  (Harr : forall items, Forall P items -> P (JArray items))
  (Hobj : forall props, Forall (fun kv => P (snd kv)) props ->
                        P (JObject props)) :
  forall v, P v.
Proof.
  fix IH 1. intros [| b | n | s | items | props].
  - exact Hnull.
  - apply Hbool.
  - apply Hnum.
  - apply Hstr.
  - apply Harr. revert items. fix IHl 1.
    intros [|x l]; constructor; [apply IH | apply IHl].
  - apply Hobj. revert props. fix IHl 1.
    intros [|[k x] l]; constructor; [apply IH | apply IHl].
Qed.

Lemma serialize_array (gap indent : jsstring) (items : list json) :
  serialize gap indent (JArray items)
  = wrap (str "[") (str "]") gap indent
      (map (serialize gap (indent ++ gap)) items).
Proof. reflexivity. Qed.

Lemma serialize_object (gap indent : jsstring)
  (props : list (jsstring * json)) :
  serialize gap indent (JObject props)
  = wrap (str "{") (str "}") gap indent
      (map (fun kv => QuoteJSONString (fst kv) ++ str ":"
                        ++ match gap with [] => [] | _ => str " " end
                        ++ serialize gap (indent ++ gap) (snd kv)) props).
Proof.
  cbn [serialize]. f_equal.
  induction props as [|[k x] ps IH]; [reflexivity|].
  cbn [map fst snd]. f_equal. exact IH.
Qed.

Lemma wrap_members (open close gap stepback p : jsstring)
  (ps : list jsstring) :
  wrap open close gap stepback (p :: ps)
  = open ++ lead gap stepback
      ++ join (44 :: lead gap stepback) (p :: ps)
      ++ trail gap stepback ++ close.
Proof.
  unfold wrap, lead, trail. destruct gap as [|g gap].
  - cbn [app]. reflexivity.
  - change (str ",") with [44]. cbn [app].
    rewrite <- !app_assoc. reflexivity.
Qed.

Lemma lead_white (gap stepback : jsstring) :
  forallb is_json_space gap = true -> forallb is_json_space stepback = true ->
  forallb is_json_space (lead gap stepback) = true.
Proof.
  intros G S. unfold lead. destruct gap as [|g gap]; [reflexivity|].
  change LF with [10]. cbn [app forallb]. rewrite forallb_app, S, G.
  reflexivity.
Qed.

Lemma trail_white (gap stepback : jsstring) :
  forallb is_json_space stepback = true ->
  forallb is_json_space (trail gap stepback) = true.
Proof.
  intros S. unfold trail. destruct gap as [|g gap]; [reflexivity|].
  change LF with [10]. cbn [app forallb]. rewrite S. reflexivity.
Qed.

Lemma read_value_white (fuel : nat) (w s : jsstring) :
  forallb is_json_space w = true ->
  read_value fuel (w ++ s) = read_value fuel s.
Proof.
  intros W. destruct fuel as [|f]; [reflexivity|].
  cbn [read_value]. rewrite (skip_space_white _ _ W). reflexivity.
Qed.

Lemma read_elements_white (fuel : nat) (w s : jsstring) :
  forallb is_json_space w = true ->
  read_elements fuel (w ++ s) = read_elements fuel s.
Proof.
  intros W. destruct fuel as [|f]; [reflexivity|].
  cbn [read_elements]. rewrite (read_value_white _ _ _ W). reflexivity.
Qed.

Lemma read_members_white (fuel : nat) (w s : jsstring) :
  forallb is_json_space w = true ->
  read_members fuel (w ++ s) = read_members fuel s.
Proof.
  intros W. destruct fuel as [|f]; [reflexivity|].
  cbn [read_members]. rewrite (skip_space_white _ _ W). reflexivity.
Qed.

(** The head of a printed value is no white space and no closing
    bracket. *)
Lemma serialize_head (gap indent : jsstring) (v : json) :
  reads_back v ->
  exists c t, serialize gap indent v = c :: t
              /\ is_json_space c = false /\ (c =? 93) = false.
Proof.
  intros B. destruct v as [| [|] | n | s | items | props].
  - do 2 eexists. split; [reflexivity | split; reflexivity].
  - do 2 eexists. split; [reflexivity | split; reflexivity].
  - do 2 eexists. split; [reflexivity | split; reflexivity].
  - unfold reads_back in B. cbn [numbers_of] in B.
    inversion B as [|? ? [(c & t & E & S) _] _]; subst.
    exists c, t. split; [exact E|].
    unfold number_start in S. unfold is_json_space.
    apply orb_true_iff in S. destruct S as [S|S].
    + apply andb_true_iff in S. destruct S as [S1 S2].
      apply N.leb_le in S1. apply N.leb_le in S2.
      split; [|apply N.eqb_neq; lia].
      repeat (apply orb_false_iff; split); apply N.eqb_neq; lia.
    + apply N.eqb_eq in S. subst. split; reflexivity.
  - do 2 eexists. split; [reflexivity | split; reflexivity].
  - rewrite serialize_array.
    destruct (map (serialize gap (indent ++ gap)) items) as [|p ps].
    + do 2 eexists. split; [reflexivity | split; reflexivity].
    + rewrite wrap_members. do 2 eexists.
      split; [reflexivity | split; reflexivity].
  - rewrite serialize_object.
    destruct (map _ props) as [|p ps].
    + do 2 eexists. split; [reflexivity | split; reflexivity].
    + rewrite wrap_members. do 2 eexists.
      split; [reflexivity | split; reflexivity].
Qed.

Lemma read_elements_step (f : nat) (s : jsstring) :
  read_elements (S f) s
  = match read_value f s with
    | None => None
    | Some (v, r) =>
        match skip_space r with
        | [] => None
        | c :: r' =>
            if c =? 44 then push v (read_elements f r')
            else if c =? 93 then Some ([v], r')
            else None
        end
    end.
Proof. reflexivity. Qed.

Lemma read_members_step (f : nat) (s : jsstring) :
  read_members (S f) s
  = match skip_space s with
    | [] => None
    | q :: r =>
        if q =? 34 then
          match read_string r with
          | None => None
          | Some (k, r1) =>
              match skip_space r1 with
              | [] => None
              | colon :: r2 =>
                  if colon =? 58 then
                    match read_value f r2 with
                    | None => None
                    | Some (v, r3) =>
                        match skip_space r3 with
                        | [] => None
                        | c :: r4 =>
                            if c =? 44 then push (k, v) (read_members f r4)
                            else if c =? 125 then Some ([(k, v)], r4)
                            else None
                        end
                    end
                  else None
              end
          end
        else None
    end.
Proof. reflexivity. Qed.

Lemma read_value_open (f : nat) (c : code_unit) (r : jsstring) :
  is_json_space c = false ->
  read_value (S f) (c :: r)
  = if c =? 123 then
      match skip_space r with
      | [] => None
      | d :: r' =>
          if d =? 125 then Some (JObject [], r')
          else match read_members f (d :: r') with
               | Some (props, r'') => Some (JObject props, r'')
               | None => None
               end
      end
    else if c =? 91 then
      match skip_space r with
      | [] => None
      | d :: r' =>
          if d =? 93 then Some (JArray [], r')
          else match read_elements f (d :: r') with
               | Some (items, r'') => Some (JArray items, r'')
               | None => None
               end
      end
    else if c =? 34 then
      match read_string r with
      | Some (t, r') => Some (JString t, r')
      | None => None
      end
    else read_atom (c :: r).
Proof.
  intros E.
  change (read_value (S f) (c :: r))
    with (match skip_space (c :: r) with
          | [] => None
          | c :: r =>
              if c =? 123 then
                match skip_space r with
                | [] => None
                | d :: r' =>
                    if d =? 125 then Some (JObject [], r')
                    else match read_members f (d :: r') with
                         | Some (props, r'') => Some (JObject props, r'')
                         | None => None
                         end
                end
              else if c =? 91 then
                match skip_space r with
                | [] => None
                | d :: r' =>
                    if d =? 93 then Some (JArray [], r')
                    else match read_elements f (d :: r') with
                         | Some (items, r'') => Some (JArray items, r'')
                         | None => None
                         end
                end
              else if c =? 34 then
                match read_string r with
                | Some (t, r') => Some (JString t, r')
                | None => None
                end
              else read_atom (c :: r)
          end).
  rewrite (skip_space_head _ _ E). reflexivity.
Qed.

Lemma read_value_atom (f : nat) (c : code_unit) (r : jsstring) :
  is_json_space c = false ->
  (c =? 123) = false -> (c =? 91) = false -> (c =? 34) = false ->
  read_value (S f) (c :: r) = read_atom (c :: r).
Proof.
  intros E0 E1 E2 E3. rewrite (read_value_open _ _ _ E0), E1, E2, E3.
  reflexivity.
Qed.

Lemma read_atom_number (n : number) (rest : jsstring) :
  number_reads_back n -> stops rest = true ->
  read_atom (number_toJSON n ++ rest) = Some (JNumber n, rest).
Proof.
  intros [(c & t & E & S) L] St. specialize (L rest St).
  assert (Hc : c = 45 \/ 48 <= c <= 57).
  { unfold number_start in S. apply orb_true_iff in S. destruct S as [S|S].
    - apply andb_true_iff in S. destruct S as [S1 S2].
      apply N.leb_le in S1. apply N.leb_le in S2. right; lia.
    - apply N.eqb_eq in S. left; exact S. }
  unfold read_atom. rewrite L. rewrite E. cbn [app].
  change (str "true") with [116; 114; 117; 101].
  change (str "false") with [102; 97; 108; 115; 101].
  change (str "null") with [110; 117; 108; 108].
  cbn [strip].
  replace (116 =? c) with false by (symmetry; apply N.eqb_neq; lia).
  replace (102 =? c) with false by (symmetry; apply N.eqb_neq; lia).
  replace (110 =? c) with false by (symmetry; apply N.eqb_neq; lia).
  reflexivity.
Qed.

Lemma join_two (sep p q : jsstring) (l : list jsstring) :
  join sep (p :: q :: l) = p ++ sep ++ join sep (q :: l).
Proof. reflexivity. Qed.

Lemma stops_white_then (w : jsstring) (c : code_unit) (rest : jsstring) :
  forallb is_json_space w = true ->
  (c =? 44) || (c =? 93) || (c =? 125) = true ->
  stops (w ++ c :: rest) = true.
Proof.
  intros W C. destruct w as [|x w]; simpl.
  - rewrite <- !orb_assoc. rewrite <- !orb_assoc in C. rewrite C.
    apply orb_true_r.
  - simpl in W. apply andb_true_iff in W. destruct W as [-> _]. reflexivity.
Qed.

Lemma read_elements_serialized (gap indent ld tr : jsstring) :
  forallb is_json_space gap = true ->
  forallb is_json_space indent = true ->
  forallb is_json_space ld = true ->
  forallb is_json_space tr = true ->
  forall items,
    Forall prints_and_reads items ->
    items <> [] ->
    forall rest fuel,
      (List.length (join (44%N :: ld) (map (serialize gap indent) items)
                      ++ tr ++ [93%N]) < fuel)%nat ->
      read_elements fuel
        (join (44 :: ld) (map (serialize gap indent) items)
           ++ tr ++ 93 :: rest)
      = Some (items, rest).
Proof.
  intros G I Ld Tr items F. induction F as [|x xs Px F IH]; [congruence|].
  intros _ rest fuel L. destruct fuel as [|f]; [lia|].
  destruct xs as [|y ys].
  - cbn [map join] in *. rewrite read_elements_step.
    rewrite !length_app in L. cbn [List.length] in L.
    rewrite (Px gap indent (tr ++ 93 :: rest) f G I
               (stops_white_then tr 93 rest Tr eq_refl) ltac:(lia)).
    rewrite (skip_space_white _ _ Tr). reflexivity.
  - cbn [map] in *. rewrite join_two in *. rewrite read_elements_step.
    rewrite <- !app_assoc. rewrite <- !app_assoc in L.
    rewrite length_app in L. cbn [app] in *. cbn [List.length] in L.
    rewrite (Px gap indent (44 :: _) f G I eq_refl ltac:(lia)).
    rewrite (skip_space_head 44) by reflexivity.
    replace (44 =? 44) with true by reflexivity.
    rewrite (read_elements_white _ _ _ Ld).
    rewrite IH; [reflexivity | discriminate |].
    rewrite (length_app ld) in L. lia.
Qed.

Lemma member_text (gap indent k rest : jsstring) (v : json) :
  QuoteJSONString k ++ str ":"
    ++ match gap with [] => [] | _ => str " " end
    ++ serialize gap indent v ++ rest
  = 34 :: quote_units k
      ++ 34 :: 58 :: match gap with [] => [] | _ => str " " end
      ++ serialize gap indent v ++ rest.
Proof.
  unfold QuoteJSONString, QUOTE. change (str ":") with [58].
  rewrite <- !app_assoc. reflexivity.
Qed.

Ltac measure L :=
  repeat (first [ rewrite length_app in L
                | progress cbn [List.length app] in L ]).

Lemma read_members_serialized (gap indent ld tr : jsstring) :
  forallb is_json_space gap = true ->
  forallb is_json_space indent = true ->
  forallb is_json_space ld = true ->
  forallb is_json_space tr = true ->
  forall props,
    Forall (fun kv => prints_and_reads (snd kv)) props ->
    props <> [] ->
    forall rest fuel,
      (List.length
         (join (44%N :: ld)
            (map (fun kv => QuoteJSONString (fst kv) ++ str ":"
                              ++ match gap with [] => [] | _ => str " " end
                              ++ serialize gap indent (snd kv)) props)
            ++ tr ++ [125%N]) < fuel)%nat ->
      read_members fuel
        (join (44 :: ld)
           (map (fun kv => QuoteJSONString (fst kv) ++ str ":"
                             ++ match gap with [] => [] | _ => str " " end
                             ++ serialize gap indent (snd kv)) props)
           ++ tr ++ 125 :: rest)
      = Some (props, rest).
Proof.
  intros G I Ld Tr props F.
  assert (Sp : forallb is_json_space
                 match gap with [] => [] | _ => str " " end = true)
    by (destruct gap; reflexivity).
  induction F as [|[k x] xs Px F IH]; [congruence|].
  intros _ rest fuel L. destruct fuel as [|f]; [lia|].
  cbn [fst snd] in Px.
  destruct xs as [|y ys].
  - cbn [map join fst snd] in *. rewrite read_members_step.
    rewrite <- !app_assoc. rewrite <- !app_assoc in L.
    unfold QuoteJSONString in L. measure L.
    rewrite member_text.
    rewrite (skip_space_head 34) by reflexivity.
    replace (34 =? 34) with true by reflexivity.
    rewrite read_quoted.
    rewrite (skip_space_head 58) by reflexivity.
    replace (58 =? 58) with true by reflexivity.
    rewrite (read_value_white _ _ _ Sp).
    rewrite (Px gap indent (tr ++ 125 :: rest) f G I
               (stops_white_then tr 125 rest Tr eq_refl) ltac:(lia)).
    rewrite (skip_space_white _ _ Tr).
    rewrite (skip_space_head 125) by reflexivity.
    reflexivity.
  - cbn [map fst snd] in *. rewrite join_two in *.
    rewrite read_members_step.
    rewrite <- !app_assoc. rewrite <- !app_assoc in L.
    unfold QuoteJSONString in L at 1. measure L.
    rewrite member_text.
    rewrite (skip_space_head 34) by reflexivity.
    replace (34 =? 34) with true by reflexivity.
    rewrite read_quoted.
    rewrite (skip_space_head 58) by reflexivity.
    replace (58 =? 58) with true by reflexivity.
    rewrite (read_value_white _ _ _ Sp).
    cbn [app].
    rewrite (Px gap indent (44 :: _) f G I eq_refl ltac:(lia)).
    rewrite (skip_space_head 44) by reflexivity.
    replace (44 =? 44) with true by reflexivity.
    rewrite (read_members_white _ _ _ Ld).
    rewrite IH; [reflexivity | discriminate |].
    repeat rewrite length_app. cbn [List.length].
    match goal with
    | |- (?a + _ < _)%nat =>
        match type of L with
        | context [(?b + (List.length tr + 1))%nat] => change b with a in L
        end
    end.
    lia.
Qed.

Lemma join_head (sep p : jsstring) (l : list jsstring) :
  exists t, join sep (p :: l) = p ++ t.
Proof.
  destruct l as [|q l].
  - exists []. cbn [join]. rewrite app_nil_r. reflexivity.
  - eexists. apply join_two.
Qed.

Lemma open_array (f : nat) (ld text : jsstring) :
  forallb is_json_space ld = true ->
  (exists c t, text = c :: t /\ is_json_space c = false /\ (c =? 93) = false) ->
  read_value (S f) (91 :: ld ++ text)
  = match read_elements f text with
    | Some (items, r) => Some (JArray items, r)
    | None => None
    end.
Proof.
  intros Ld (c & t & -> & Sc & Ec).
  rewrite read_value_open by reflexivity.
  change (91 =? 123) with false. change (91 =? 91) with true. cbv iota.
  rewrite (skip_space_white _ _ Ld), (skip_space_head _ _ Sc), Ec.
  reflexivity.
Qed.

Lemma open_object (f : nat) (ld text : jsstring) :
  forallb is_json_space ld = true ->
  (exists t, text = 34 :: t) ->
  read_value (S f) (123 :: ld ++ text)
  = match read_members f text with
    | Some (props, r) => Some (JObject props, r)
    | None => None
    end.
Proof.
  intros Ld (t & ->).
  rewrite read_value_open by reflexivity.
  change (123 =? 123) with true. cbv iota.
  rewrite (skip_space_white _ _ Ld), (skip_space_head 34) by reflexivity.
  reflexivity.
Qed.

Lemma reads_back_items (items : list json) :
  reads_back (JArray items) -> Forall reads_back items.
Proof.
  unfold reads_back. cbn [numbers_of]. intros B.
  apply Forall_flat_map in B. exact B.
Qed.

Lemma reads_back_props (props : list (jsstring * json)) :
  reads_back (JObject props) -> Forall (fun kv => reads_back (snd kv)) props.
Proof.
  unfold reads_back. cbn [numbers_of]. intros B.
  apply Forall_flat_map in B. exact B.
Qed.

Lemma Forall_modus {A} (P Q : A -> Prop) (l : list A) :
  Forall (fun x => P x -> Q x) l -> Forall P l -> Forall Q l.
Proof.
  induction 1 as [|x l Hx _ IH]; intros F; constructor;
    inversion F; subst; auto.
Qed.

(** What [JSON.stringify] prints, at any indentation made of spaces, is a
    text that reads back as the value printed. *)
Lemma serialized_reads (v : json) : reads_back v -> prints_and_reads v.
Proof.
  induction v as [| b | n | s | items IH | props IH] using json_induction;
    intros B gap indent rest fuel G I St L;
    (destruct fuel as [|f]; [lia|]).
  - reflexivity.
  - destruct b; reflexivity.
  - cbn [serialize].
    inversion B as [|? ? Bn _]; subst.
    destruct Bn as [(c & t & E & S) Law].
    assert (Hc : c = 45 \/ 48 <= c <= 57).
    { unfold number_start in S. apply orb_true_iff in S. destruct S as [S|S].
      - apply andb_true_iff in S. destruct S as [S1 S2].
        apply N.leb_le in S1. apply N.leb_le in S2. right; lia.
      - apply N.eqb_eq in S. left; exact S. }
    pose proof (read_atom_number n rest
                  (conj (ex_intro _ c (ex_intro _ t (conj E S))) Law) St) as A.
    rewrite E in *. cbn [app] in *.
    rewrite read_value_atom; [exact A | | | |];
      unfold is_json_space;
      repeat (apply orb_false_iff; split); apply N.eqb_neq; lia.
  - cbn [serialize]. unfold QuoteJSONString, QUOTE.
    rewrite <- !app_assoc. cbn [app].
    rewrite read_value_open by reflexivity.
    change (34 =? 123) with false. change (34 =? 91) with false.
    change (34 =? 34) with true. cbv iota.
    rewrite read_quoted. reflexivity.
  - pose proof (Forall_modus _ _ _ IH (reads_back_items _ B)) as F.
    rewrite serialize_array in *.
    destruct items as [|x xs]; [reflexivity|].
    cbn [map] in *. rewrite wrap_members in *.
    change (str "[") with [91] in *. change (str "]") with [93] in *.
    rewrite <- !app_assoc. cbn [app].
    rewrite open_array.
    + change (serialize gap (indent ++ gap) x
                :: map (serialize gap (indent ++ gap)) xs)
        with (map (serialize gap (indent ++ gap)) (x :: xs)) in *.
      rewrite (read_elements_serialized gap (indent ++ gap)
                 (lead gap indent) (trail gap indent)); trivial.
      * rewrite forallb_app, I, G. reflexivity.
      * apply lead_white; assumption.
      * apply trail_white; assumption.
      * discriminate.
      * measure L. repeat rewrite length_app. cbn [List.length].
        match goal with
        | |- (?a + _ < _)%nat =>
            match type of L with
            | context [(?b + (_ + 1))%nat] => change b with a in L
            end
        end.
        lia.
    + apply lead_white; assumption.
    + inversion F as [|? ? Px _]; subst.
      assert (Bx : reads_back x)
        by (pose proof (reads_back_items _ B) as Bi; inversion Bi; assumption).
      destruct (serialize_head gap (indent ++ gap) x Bx)
        as (c & t & E & Sc & Ec).
      destruct (join_head (44 :: lead gap indent)
                  (serialize gap (indent ++ gap) x)
                  (map (serialize gap (indent ++ gap)) xs)) as [t' ->].
      rewrite E. cbn [app]. do 2 eexists. split; [reflexivity|].
      split; assumption.
  - pose proof (Forall_modus _ _ _ IH (reads_back_props _ B)) as F.
    rewrite serialize_object in *.
    destruct props as [|[k x] xs]; [reflexivity|].
    cbn [map] in *. rewrite wrap_members in *.
    change (str "{") with [123] in *. change (str "}") with [125] in *.
    rewrite <- !app_assoc. cbn [app].
    rewrite open_object.
    + match goal with
      | |- context [join _ (?p :: map ?f xs)] =>
          change (p :: map f xs) with (map f ((k, x) :: xs)) in *
      end.
      rewrite (read_members_serialized gap (indent ++ gap)
                 (lead gap indent) (trail gap indent)); trivial.
      * rewrite forallb_app, I, G. reflexivity.
      * apply lead_white; assumption.
      * apply trail_white; assumption.
      * discriminate.
      * measure L. repeat rewrite length_app. cbn [List.length].
        match goal with
        | |- (?a + _ < _)%nat =>
            match type of L with
            | context [(?b + (_ + 1))%nat] => change b with a in L
            end
        end.
        lia.
    + apply lead_white; assumption.
    + match goal with
      | |- context [join ?sep (?p :: ?l)] =>
          destruct (join_head sep p l) as [t' ->]
      end.
      cbn [fst snd]. unfold QuoteJSONString, QUOTE. cbn [app].
      eexists. reflexivity.
Qed.

(** The whole text printed for a value parses as that value. *)
Lemma JSON_parse_serialize (gap indent : jsstring) (v : json) :
  forallb is_json_space gap = true ->
  forallb is_json_space indent = true ->
  reads_back v ->
  JSON_parse (serialize gap indent v) = Some v.
Proof.
  intros G I B. unfold JSON_parse.
  pose proof (serialized_reads v B gap indent []
                (S (List.length (serialize gap indent v))) G I eq_refl
                (Nat.lt_succ_diag_r _)) as E.
  rewrite app_nil_r in E. rewrite E. reflexivity.
Qed.

End ReaderProperties.

(* ------------------------------------------------------------------ *)
(** *** The integral host reads its numerals back *)










Section ResponseProperties.

Context {H : Host} {R : NumberReader H}.


Lemma read_defined (data : json) (k : jsstring) :
  data <> JNull -> read (Some data) k = Normal (get data k).
Proof. destruct data; simpl; congruence. Qed.

(** [data.payload?.text] is the [text] property of the payload when the
    payload holds one. *)
Lemma read_optional_get (data payload : json) (v : json) :
  get data (str "payload") = Some payload ->
  get payload (str "text") = Some v ->
  read_optional (get data (str "payload")) (str "text") = Some v.
Proof.
  intros -> Ht. destruct payload; simpl in *; congruence.
Qed.

(** [botText] on a response that is not [null]: no read of [data] throws. *)
Lemma botText_defined (data : json) :
  data <> JNull ->
  botText data =
  if strict_eq_string (get data (str "type")) (str "chat_reply")
     && truthy (read_optional (get data (str "payload")) (str "text"))
  then read (get data (str "payload")) (str "text")
  else if strict_eq_string (get data (str "type")) (str "result")
  then result <- read (get data (str "payload")) (str "result") ;;
       Normal (Some (JString (str "SQL Query Result:" ++ LF
                                ++ template (JSON_stringify gap2 result))))
  else Normal (Some (JString (serialize gap2 [] data))).
Proof.
  intros Hn. unfold botText. rewrite !(read_defined _ _ Hn). reflexivity.
Qed.

(** The third branch is taken exactly when neither test succeeds. *)
Lemma botText_else (data : json) :
  data <> JNull ->
  strict_eq_string (get data (str "type")) (str "chat_reply")
    && truthy (read_optional (get data (str "payload")) (str "text")) = false ->
  strict_eq_string (get data (str "type")) (str "result") = false ->
  botText data = Normal (Some (JString (serialize gap2 [] data))).
Proof.
  intros Hn H1 H2. rewrite (botText_defined _ Hn), H1, H2. reflexivity.
Qed.



(** C3, amended: a [chat_reply] whose payload holds a string [text] is
    shown as that text when the text is not empty; when it is empty the
    whole envelope is shown as JSON. *)
Theorem chat_reply_text_shown (data payload : json) (s : jsstring) :
  get data (str "type") = Some (JString (str "chat_reply")) ->
  get data (str "payload") = Some payload ->
  get payload (str "text") = Some (JString s) ->
  (s <> [] -> botText data = Normal (Some (JString s)))
  /\ (s = [] ->
      botText data = Normal (Some (JString (serialize gap2 [] data)))).
Proof.
  intros Ht Hp Hs.
  assert (Hn : data <> JNull) by (intros ->; discriminate).
  assert (Hpn : payload <> JNull) by (intros ->; discriminate).
  rewrite (botText_defined _ Hn), Ht, (read_optional_get _ _ _ Hp Hs), Hp.
  replace (strict_eq_string (Some (JString (str "chat_reply")))
             (str "chat_reply")) with true by reflexivity.
  replace (strict_eq_string (Some (JString (str "chat_reply")))
             (str "result")) with false by reflexivity.
  destruct s as [|c s]; cbn [truthy andb]; split; try congruence; intros _.
  - reflexivity.
  - rewrite (read_defined _ _ Hpn), Hs. reflexivity.
Qed.


Lemma failed_throws (o : fetch_outcome) :
  failed o = true -> exists e, try_block o = Throw e.
Proof.
  destruct o as [r|e]; [|intros _; eexists; reflexivity].
  unfold failed, try_block. cbn [bind].
  destruct (ok r); cbn [negb orb].
  - destruct (json_result r); [discriminate | intros _; eexists; reflexivity].
  - intros _; eexists; reflexivity.
Qed.

Lemma error_text_prefix (e : thrown) :
  startsWith (str "Error:") (error_text e) = true.
Proof. reflexivity. Qed.

Lemma reply_message_bot (o : fetch_outcome) (t_now t_date : Z) :
  sender (reply_message o t_now t_date) = bot.
Proof. unfold reply_message. destruct (try_block o); reflexivity. Qed.

Lemma reply_message_error (o : fetch_outcome) (t_now t_date : Z) (e : thrown) :
  try_block o = Throw e ->
  text (reply_message o t_now t_date) = Some (JString (error_text e)).
Proof. intros E. unfold reply_message. rewrite E. reflexivity. Qed.

(** C8: a submission that passes the guard issues its request with the
    loading flag set; whatever the request settles to, the handler then
    clears the flag and appends exactly one message, sent by the bot; and
    when the request failed (rejected call, status outside 200-299,
    rejected body) or anything else was thrown in the [try] block, the
    text of that message starts with [Error:]. *)
Theorem send_ends_with_one_bot_message :
  (forall t_id t_date t_msg s,
      guard s = false ->
      isLoading (fst (handleSendMessage_submit t_id t_date t_msg s)) = true
      /\ exists call,
           snd (handleSendMessage_submit t_id t_date t_msg s) = Some call)
  /\ (forall o t_now t_date s,
        isLoading (handleSendMessage_settle o t_now t_date s) = false
        /\ exists m,
             messages (handleSendMessage_settle o t_now t_date s)
               = messages s ++ [m]
             /\ sender m = bot
             /\ (failed o = true \/ (exists e, try_block o = Throw e) ->
                 exists t, text m = Some (JString t)
                           /\ startsWith (str "Error:") t = true)).
Proof.
  split.
  - intros t_id t_date t_msg s G. unfold handleSendMessage_submit.
    rewrite G. simpl. eauto.
  - intros o t_now t_date s. split; [reflexivity|].
    exists (reply_message o t_now t_date). split; [reflexivity|].
    split; [apply reply_message_bot|].
    intros F.
    assert (T : exists e, try_block o = Throw e)
      by (destruct F as [F|F]; [apply failed_throws; exact F | exact F]).
    destruct T as [e T]. exists (error_text e). split.
    + apply reply_message_error; exact T.
    + apply error_text_prefix.
Qed.

End ResponseProperties.

Section MachineProperties.

Context {H : Host} {R : NumberReader H}.

Lemma guard_false (s : state) :
  guard s = false -> trim (inputText s) <> [] /\ isLoading s = false.
Proof.
  unfold guard. intros G. apply orb_false_iff in G. destruct G as [G1 G2].
  split; [|exact G2].
  simpl in G1. destruct (trim (inputText s)); [discriminate | congruence].
Qed.

Lemma submit_issues (t_id t_date t_msg : Z) (s s' : state) (call : fetch_call) :
  handleSendMessage_submit t_id t_date t_msg s = (s', Some call) ->
  guard s = false
  /\ call = chat_fetch (str "msg-" ++ Z_toString t_msg) (sessionId s) (inputText s)
  /\ messages s' = messages s ++ [ {| id := t_id;
                                      text := Some (JString (inputText s));
                                      sender := user;
                                      timestamp := t_date |} ]
  /\ sessionId s' = sessionId s
  /\ isLoading s' = true.
Proof.
  unfold handleSendMessage_submit. destruct (guard s); [discriminate|].
  intros E. injection E as <- <-. repeat split.
Qed.

Lemma submit_refused (t_id t_date t_msg : Z) (s : state) :
  guard s = true -> handleSendMessage_submit t_id t_date t_msg s = (s, None).
Proof. unfold handleSendMessage_submit. intros ->. reflexivity. Qed.


(** The body of a request is a JSON text for the envelope. *)
Lemma body_parses (uniqueId session currentInput : jsstring) :
  JSON_parse (body (chat_fetch uniqueId session currentInput))
  = Some (envelope uniqueId session currentInput).
Proof.
  unfold chat_fetch. cbn [body].
  apply JSON_parse_serialize; try reflexivity.
  unfold reads_back, envelope. cbn [numbers_of flat_map snd app].
  constructor.
Qed.

(** A request is issued only by a submission that passes the guard. *)
Lemma step_issues (w : world) (e : event) (call : fetch_call) :
  In call (snd (step w e)) ->
  guard (ui w) = false
  /\ exists t_msg,
       call = chat_fetch (str "msg-" ++ Z_toString t_msg)
                (sessionId (ui w)) (inputText (ui w)).
Proof.
  destruct e as [v|t1 t2 t3|k o t1 t2|t r]; simpl;
    try contradiction.
  - destruct (handleSendMessage_submit t1 t2 t3 (ui w)) as [s' [c|]] eqn:E;
      simpl; [|contradiction].
    intros [<-|[]]. apply submit_issues in E.
    destruct E as (G & -> & _). split; [exact G | exists t3; reflexivity].
  - destruct (nth_error (inflight w) k); simpl; contradiction.
Qed.

Lemma run_cons (w : world) (e : event) (evs : list event) :
  run w (e :: evs)
  = (fst (run (fst (step w e)) evs),
     snd (step w e) ++ snd (run (fst (step w e)) evs)).
Proof.
  simpl. destruct (step w e) as [w1 out1].
  simpl. destruct (run w1 evs) as [w2 out2]. reflexivity.
Qed.

Lemma run_preserves (P : world -> Prop) :
  (forall w e, P w -> P (fst (step w e))) ->
  forall evs w, P w -> P (fst (run w evs)).
Proof.
  intros Hstep. induction evs as [|e evs IH]; intros w Pw.
  - exact Pw.
  - rewrite run_cons. simpl. apply IH, Hstep, Pw.
Qed.

(** The session identifier changes at a clear only. *)
Lemma step_keeps_session (w : world) (e : event) :
  is_clear e = false -> sessionId (ui (fst (step w e))) = sessionId (ui w).
Proof.
  destruct e as [v|t1 t2 t3|k o t1 t2|t r]; simpl; try discriminate;
    intros _; trivial.
  - destruct (handleSendMessage_submit t1 t2 t3 (ui w)) as [s' [c|]] eqn:E;
      simpl.
    + apply submit_issues in E. tauto.
    + unfold handleSendMessage_submit in E.
      destruct (guard (ui w)); [|discriminate]. congruence.
  - destruct (nth_error (inflight w) k); reflexivity.
Qed.

(* ------------------------------------------------------------------ *)
(** *** One request at a time *)

Lemma remove_nth_length {A} (k : nat) (l : list A) (x : A) :
  nth_error l k = Some x ->
  List.length (remove_nth k l) = pred (List.length l).
Proof.
  revert k; induction l as [|y l IH]; intros [|k]; simpl; try discriminate.
  - reflexivity.
  - intros E. rewrite (IH _ E). destruct l; [destruct k; discriminate|].
    reflexivity.
Qed.

Lemma step_one_in_flight (w : world) (e : event) :
  one_in_flight w -> one_in_flight (fst (step w e)).
Proof.
  unfold one_in_flight. intros I.
  destruct e as [v|t1 t2 t3|k o t1 t2|t r]; simpl; trivial.
  - destruct (handleSendMessage_submit t1 t2 t3 (ui w)) as [s' [c|]] eqn:E;
      simpl.
    + apply submit_issues in E. destruct E as (G & _ & _ & _ & L).
      apply guard_false in G. destruct G as [_ G].
      rewrite G in I. rewrite L, length_app, I. reflexivity.
    + unfold handleSendMessage_submit in E.
      destruct (guard (ui w)); [|discriminate].
      injection E as <-. exact I.
  - destruct (nth_error (inflight w) k) eqn:E; simpl; [|exact I].
    rewrite (remove_nth_length _ _ _ E), I.
    destruct (isLoading (ui w)); reflexivity.
Qed.

Lemma start_one_in_flight (now : Z) (rnd : jsstring) :
  one_in_flight (start now rnd).
Proof. reflexivity. Qed.

Lemma reachable_one_in_flight (now : Z) (rnd : jsstring) (evs : list event) :
  one_in_flight (fst (run (start now rnd) evs)).
Proof.
  apply run_preserves; [apply step_one_in_flight | apply start_one_in_flight].
Qed.

Lemma one_in_flight_loading (w : world) :
  one_in_flight w -> (isLoading (ui w) = true <-> inflight w <> []).
Proof.
  unfold one_in_flight. destruct (isLoading (ui w)), (inflight w);
    simpl; intros I; try discriminate; split; congruence.
Qed.



Lemma run_keeps_session (evs : list event) :
  forall w : world,
    forallb (fun e => negb (is_clear e)) evs = true ->
    sessionId (ui (fst (run w evs))) = sessionId (ui w)
    /\ forall call, In call (snd (run w evs)) ->
         exists uniqueId currentInput,
           call = chat_fetch uniqueId (sessionId (ui w)) currentInput.
Proof.
  induction evs as [|e evs IH]; intros w F.
  - split; [reflexivity | simpl; contradiction].
  - simpl in F. apply andb_true_iff in F. destruct F as [Fe F].
    apply negb_true_iff in Fe.
    destruct (IH (fst (step w e)) F) as [IH1 IH2].
    rewrite (step_keeps_session w e Fe) in IH1, IH2.
    rewrite run_cons. split; [exact IH1|].
    intros call. simpl snd. rewrite in_app_iff. intros [I|I].
    + apply step_issues in I. destruct I as (_ & t & ->). eauto.
    + apply IH2, I.
Qed.

(** C4, amended: the identifier is computed by the client, at startup and
    at each clear, as [session-], the clock reading, a hyphen and the
    random suffix; it differs from another one so computed whenever the
    reading or the suffix differs, and is the same when both are the same.
    No other event changes it, whatever a response holds; so the body of
    every request issued over a stretch of events without a clear, read as
    JSON, carries the identifier of the stretch as its [session_id]. *)
Theorem session_id_minted_by_client :
  (forall now rnd,
      sessionId (ui (start now rnd))
      = str "session-" ++ Z_toString now ++ str "-" ++ rnd)
  /\ (forall w t_now rnd,
        sessionId (ui (fst (step w (Clear t_now rnd))))
        = str "session-" ++ Z_toString t_now ++ str "-" ++ rnd)
  /\ (forall now now' rnd rnd',
        (0 <= now)%Z -> (0 <= now')%Z ->
        (newSessionId now rnd = newSessionId now' rnd'
         <-> now = now' /\ rnd = rnd'))
  /\ (forall w evs,
        forallb (fun e => negb (is_clear e)) evs = true ->
        sessionId (ui (fst (run w evs))) = sessionId (ui w)
        /\ forall call, In call (snd (run w evs)) ->
             url call = str "http://localhost:8000/chat"
             /\ method call = str "POST"
             /\ exists env,
                  JSON_parse (body call) = Some env
                  /\ get env (str "session_id")
                     = Some (JString (sessionId (ui w)))).
Proof.
  split; [reflexivity|]. split; [reflexivity|]. split.
  - intros now now' rnd rnd' P P'. split.
    + apply newSessionId_inj; assumption.
    + intros [-> ->]. reflexivity.
  - intros w evs F. destruct (run_keeps_session evs w F) as [K1 K2].
    split; [exact K1|]. intros call I.
    destruct (K2 call I) as (u & c & ->).
    split; [reflexivity|]. split; [reflexivity|].
    eexists. split; [apply body_parses | reflexivity].
Qed.

(** C5, amended: the clear action issues no request.  It empties the local
    list of messages and replaces the session identifier by a newly minted
    one, leaving input, loading flag and requests in flight as they are;
    requests issued afterwards, up to the next clear, carry the new
    identifier. *)
Theorem clear_is_local (w : world) (t_now : Z) (rnd : jsstring) :
  snd (step w (Clear t_now rnd)) = []
  /\ inflight (fst (step w (Clear t_now rnd))) = inflight w
  /\ ui (fst (step w (Clear t_now rnd)))
     = {| messages := [];
          inputText := inputText (ui w);
          sessionId := newSessionId t_now rnd;
          isLoading := isLoading (ui w) |}
  /\ forall evs call,
       forallb (fun e => negb (is_clear e)) evs = true ->
       In call (snd (run (fst (step w (Clear t_now rnd))) evs)) ->
       exists uniqueId currentInput,
         call = chat_fetch uniqueId (newSessionId t_now rnd) currentInput.
Proof.
  repeat split. intros evs call F I.
  destruct (run_keeps_session evs (fst (step w (Clear t_now rnd))) F)
    as [_ K]. exact (K call I).
Qed.

(* ------------------------------------------------------------------ *)
(** *** What is on the page *)









(** C9: in every reachable world at most one request is in flight, and one
    is exactly while the loading flag is set; with the flag set a
    submission changes nothing and issues nothing, and input and send
    button are disabled. *)
Theorem at_most_one_request_in_flight (now : Z) (rnd : jsstring)
  (evs : list event) :
  let w := fst (run (start now rnd) evs) in
  (List.length (inflight w) <= 1)%nat
  /\ (isLoading (ui w) = true <-> inflight w <> [])
  /\ (isLoading (ui w) = true ->
        (forall t_id t_date t_msg,
            step w (Submit t_id t_date t_msg) = (w, []))
        /\ input_disabled (App (ui w)) = true
        /\ send_disabled (App (ui w)) = true).
Proof.
  intros w.
  pose proof (reachable_one_in_flight now rnd evs) as I. fold w in I.
  split; [|split].
  - unfold one_in_flight in I. rewrite I.
    destruct (isLoading (ui w)); auto.
  - apply one_in_flight_loading, I.
  - intros L. split; [|split].
    + intros t_id t_date t_msg. simpl.
      rewrite submit_refused by (unfold guard; rewrite L; apply orb_true_r).
      destruct w; reflexivity.
    + simpl. exact L.
    + simpl. rewrite L. reflexivity.
Qed.

(* ------------------------------------------------------------------ *)
(** *** The list of messages *)

Lemma alternates_snoc (l : list Message) (m : Message) :
  forall b,
    alternates b (l ++ [m])
    = alternates b l
      && Bool.eqb (is_user m) (if Nat.even (List.length l) then b else negb b).
Proof.
  induction l as [|a l IH]; intros b.
  - simpl. rewrite andb_true_r. reflexivity.
  - cbn [alternates app List.length]. rewrite IH, Nat.even_succ, <- Nat.negb_even.
    rewrite <- andb_assoc. f_equal. f_equal.
    destruct (Nat.even (List.length l)), b; reflexivity.
Qed.

(** Every event but a clear leaves the list or adds one message at its end;
    a submission adds the user's, a settled request the bot's. *)
Lemma step_appends (w : world) (e : event) :
  is_clear e = false ->
  messages (ui (fst (step w e))) = messages (ui w)
  \/ exists m, messages (ui (fst (step w e))) = messages (ui w) ++ [m]
               /\ sender m = match e with Settle _ _ _ _ => bot | _ => user end.
Proof.
  destruct e as [v|t1 t2 t3|k o t1 t2|t r]; simpl; try discriminate; intros _.
  - left; reflexivity.
  - destruct (handleSendMessage_submit t1 t2 t3 (ui w)) as [s' [c|]] eqn:E;
      simpl.
    + apply submit_issues in E. destruct E as (_ & _ & M & _).
      right. eexists. split; [exact M | reflexivity].
    + unfold handleSendMessage_submit in E.
      destruct (guard (ui w)); [|discriminate].
      injection E as <-. left; reflexivity.
  - destruct (nth_error (inflight w) k); simpl.
    + right. eexists. split; [reflexivity | apply reply_message_bot].
    + left; reflexivity.
Qed.

Lemma step_tidy (w : world) (e : event) :
  tidy w ->
  (is_clear e = true -> inflight w = []) ->
  tidy (fst (step w e)).
Proof.
  intros (I & A & P) C.
  split; [apply step_one_in_flight, I|].
  destruct e as [v|t1 t2 t3|k o t1 t2|t r]; simpl.
  - split; assumption.
  - destruct (handleSendMessage_submit t1 t2 t3 (ui w)) as [s' [c|]] eqn:E;
      simpl.
    + apply submit_issues in E. destruct E as (G & _ & M & _ & L).
      apply guard_false in G. destruct G as [_ G]. rewrite G in P.
      rewrite M, L, alternates_snoc, A, P, length_app, Nat.add_1_r,
        Nat.even_succ, <- Nat.negb_even, P.
      split; reflexivity.
    + unfold handleSendMessage_submit in E.
      destruct (guard (ui w)); [|discriminate].
      injection E as <-. split; assumption.
  - destruct (nth_error (inflight w) k) eqn:E; simpl; [|split; assumption].
    assert (L : isLoading (ui w) = true).
    { apply (one_in_flight_loading _ I). intros N. rewrite N in E.
      destruct k; discriminate. }
    rewrite L in P.
    rewrite alternates_snoc, A, P, length_app, Nat.add_1_r,
      Nat.even_succ, <- Nat.negb_even, P.
    unfold is_user. rewrite reply_message_bot. split; reflexivity.
  - assert (L : isLoading (ui w) = false).
    { destruct (isLoading (ui w)) eqn:L; [|reflexivity].
      exfalso. apply (one_in_flight_loading _ I); auto. }
    rewrite L. split; reflexivity.
Qed.

Lemma run_tidy (evs : list event) :
  forall w, tidy w -> clears_when_idle w evs = true -> tidy (fst (run w evs)).
Proof.
  induction evs as [|e evs IH]; intros w T C; [exact T|].
  simpl in C. apply andb_true_iff in C. destruct C as [Ce C].
  rewrite run_cons. simpl fst. apply IH; [|exact C].
  apply step_tidy; [exact T|].
  intros Ec. rewrite Ec in Ce. destruct (inflight w); [reflexivity|discriminate].
Qed.

(** C10, amended: apart from a clear, an event leaves the list of messages
    as it is or appends one message; a submission that passes the guard
    appends the user's message and the settling of a request in flight
    appends one message of the bot; and as long as no clear happens while
    a request is in flight, the list alternates user, bot, ... from its
    start and has even length whenever no request is in flight. *)
Theorem messages_alternate_unless_cleared_in_flight :
  (forall w e,
      is_clear e = false ->
      messages (ui (fst (step w e))) = messages (ui w)
      \/ exists m,
           messages (ui (fst (step w e))) = messages (ui w) ++ [m]
           /\ sender m = match e with Settle _ _ _ _ => bot | _ => user end)
  /\ (forall w t_id t_date t_msg,
        guard (ui w) = false ->
        exists m,
          messages (ui (fst (step w (Submit t_id t_date t_msg))))
            = messages (ui w) ++ [m]
          /\ sender m = user)
  /\ (forall w k o t_now t_date,
        (k < List.length (inflight w))%nat ->
        exists m,
          messages (ui (fst (step w (Settle k o t_now t_date))))
            = messages (ui w) ++ [m]
          /\ sender m = bot)
  /\ (forall now rnd evs,
        clears_when_idle (start now rnd) evs = true ->
        let w := fst (run (start now rnd) evs) in
        alternates true (messages (ui w)) = true
        /\ (inflight w = [] ->
            Nat.even (List.length (messages (ui w))) = true)).
Proof.
  split; [exact step_appends|]. split; [|split].
  - intros w t_id t_date t_msg G. simpl. unfold handleSendMessage_submit.
    rewrite G. simpl. eexists. split; reflexivity.
  - intros w k o t_now t_date L. simpl.
    destruct (nth_error (inflight w) k) eqn:E.
    + simpl. eexists. split; [reflexivity | apply reply_message_bot].
    + apply nth_error_None in E. lia.
  - intros now rnd evs C w.
    assert (T : tidy w).
    { apply run_tidy; [|exact C].
      split; [apply start_one_in_flight | split; reflexivity]. }
    destruct T as (I & A & P). split; [exact A|].
    intros E. rewrite P.
    destruct (isLoading (ui w)) eqn:L; [|reflexivity].
    exfalso. apply (one_in_flight_loading _ I); auto.
Qed.

End MachineProperties.

(* ================================================================== *)
(** * Further properties of the handlers and the view *)
(* ================================================================== *)

(* ------------------------------------------------------------------ *)
(** *** Blank input *)

Lemma trimStart_nil (s : jsstring) :
  trimStart s = [] <-> forallb is_trim_space s = true.
Proof.
  induction s as [|c s IH]; simpl; [tauto|].
  destruct (is_trim_space c); simpl; [exact IH|].
  split; discriminate.
Qed.

Lemma trimStart_head (s : jsstring) :
  match trimStart s with
  | [] => True
  | c :: _ => is_trim_space c = false
  end.
Proof.
  induction s as [|c s IH]; simpl; trivial.
  destruct (is_trim_space c) eqn:E; [exact IH | exact E].
Qed.

Lemma forallb_rev {A} (f : A -> bool) (l : list A) :
  forallb f (rev l) = forallb f l.
Proof.
  induction l as [|x l IH]; simpl; trivial.
  rewrite forallb_app, IH. simpl. rewrite andb_true_r. apply andb_comm.
Qed.

Lemma trim_nil (s : jsstring) :
  trim s = [] <-> forallb is_trim_space s = true.
Proof.
  unfold trim, trimEnd. split.
  - intros E. apply (f_equal (@rev code_unit)) in E.
    rewrite rev_involutive in E. simpl in E.
    apply trimStart_nil in E. rewrite forallb_rev in E.
    apply trimStart_nil. pose proof (trimStart_head s) as Hd.
    destruct (trimStart s) as [|c r]; trivial.
    simpl in E. rewrite Hd in E. discriminate.
  - intros E. apply trimStart_nil in E. rewrite E. reflexivity.
Qed.

Lemma nonblank_forallb (s : jsstring) :
  nonblank s = negb (forallb is_trim_space s).
Proof.
  unfold nonblank. induction s as [|c s IH]; simpl; trivial.
  rewrite IH. destruct (is_trim_space c); reflexivity.
Qed.

Section FurtherProperties.

Context {H : Host}.

Lemma guard_nonblank (s : state) :
  guard s = negb (nonblank (inputText s)) || isLoading s.
Proof.
  unfold guard. f_equal. rewrite nonblank_forallb, negb_involutive. simpl.
  destruct (trim (inputText s)) eqn:E.
  - symmetry. apply trim_nil, E.
  - destruct (forallb is_trim_space (inputText s)) eqn:F; trivial.
    apply trim_nil in F. congruence.
Qed.

Lemma step_submit_refused (w : world) (t_id t_date t_msg : Z) :
  guard (ui w) = true -> step w (Submit t_id t_date t_msg) = (w, []).
Proof.
  intros G. simpl. rewrite (submit_refused _ _ _ _ G). destruct w; reflexivity.
Qed.

Lemma step_submit_accepted (w : world) (t_id t_date t_msg : Z) :
  guard (ui w) = false ->
  step w (Submit t_id t_date t_msg)
  = (let call := chat_fetch (str "msg-" ++ Z_toString t_msg)
                   (sessionId (ui w)) (inputText (ui w)) in
     ({| ui := {| messages := messages (ui w)
                     ++ [ {| id := t_id;
                             text := Some (JString (inputText (ui w)));
                             sender := user;
                             timestamp := t_date |} ];
                  inputText := [];
                  sessionId := sessionId (ui w);
                  isLoading := true |};
         inflight := inflight w ++ [call] |}, [call])).
Proof.
  intros G. simpl. unfold handleSendMessage_submit. rewrite G. reflexivity.
Qed.

(** X1: a submission goes through exactly when nothing is loading and the
    input holds a code unit that is not white space; any other submission
    leaves the world as it is and issues no request. *)
Theorem submission_needs_idle_and_nonblank :
  (forall s, guard s = false
             <-> isLoading s = false /\ nonblank (inputText s) = true)
  /\ (forall w t_id t_date t_msg,
        isLoading (ui w) = true \/ nonblank (inputText (ui w)) = false ->
        step w (Submit t_id t_date t_msg) = (w, [])).
Proof.
  split.
  - intros s. rewrite guard_nonblank, orb_false_iff, negb_false_iff. tauto.
  - intros w t_id t_date t_msg B. apply step_submit_refused.
    rewrite guard_nonblank. destruct B as [-> | ->];
      [apply orb_true_r | reflexivity].
Qed.

(** X2: the send button is disabled exactly when the handler would return
    at its guard; so a submission with the button enabled appends one user
    message and issues exactly one request. *)
Theorem send_button_agrees_with_guard :
  (forall s, send_disabled (App s) = guard s)
  /\ (forall w t_id t_date t_msg,
        send_disabled (App (ui w)) = false ->
        exists call m,
          snd (step w (Submit t_id t_date t_msg)) = [call]
          /\ inflight (fst (step w (Submit t_id t_date t_msg)))
             = inflight w ++ [call]
          /\ messages (ui (fst (step w (Submit t_id t_date t_msg))))
             = messages (ui w) ++ [m]
          /\ sender m = user).
Proof.
  assert (E : forall s, send_disabled (App s) = guard s)
    by (intros s; unfold guard; simpl; apply orb_comm).
  split; [exact E|].
  intros w t_id t_date t_msg D. rewrite E in D.
  rewrite (step_submit_accepted _ _ _ _ D). cbv zeta. simpl.
  eexists. eexists. repeat split.
Qed.

(** X3: what is typed is what is sent and shown: after typing [value],
    which is not blank, into an idle component, a submission stores
    [value] itself, untrimmed, as the user message, puts the same [value]
    into the request together with the current session identifier, empties
    the input and sets the loading flag. *)
Theorem typed_text_is_sent_and_shown (w : world) (value : jsstring)
  (t_id t_date t_msg : Z) :
  isLoading (ui w) = false ->
  nonblank value = true ->
  let call := chat_fetch (str "msg-" ++ Z_toString t_msg)
                (sessionId (ui w)) value in
  run w [ Change value; Submit t_id t_date t_msg ]
  = ({| ui := {| messages := messages (ui w)
                    ++ [ {| id := t_id; text := Some (JString value);
                            sender := user; timestamp := t_date |} ];
                 inputText := [];
                 sessionId := sessionId (ui w);
                 isLoading := true |};
        inflight := inflight w ++ [call] |}, [call]).
Proof.
  intros L N call.
  rewrite run_cons.
  assert (G : guard (ui (fst (step w (Change value)))) = false).
  { rewrite guard_nonblank. simpl. rewrite N, L. reflexivity. }
  rewrite run_cons, (step_submit_accepted _ _ _ _ G). reflexivity.
Qed.

(* ------------------------------------------------------------------ *)
(** *** Failed requests *)

(** X4: the text shown for a failed request.  A status outside 200-299
    gives [Error: HTTP error! status: N] and the body is not read, whatever
    it would have given; a rejected call or a rejected body gives [Error: ]
    followed by the message of the error, or by the fixed sentence when the
    thrown value is not an [Error].  In each case the id is the clock
    reading plus two. *)
Theorem failure_messages (t_now t_date : Z) :
  (forall r,
      ok r = false ->
      reply_message (Fulfilled r) t_now t_date
      = {| id := (t_now + 2)%Z;
           text := Some (JString (str "Error: HTTP error! status: "
                                    ++ Z_toString (status r)));
           sender := bot; timestamp := t_date |})
  /\ (forall r e,
        ok r = true -> json_result r = ParseRejected e ->
        reply_message (Fulfilled r) t_now t_date
        = reply_message (Rejected e) t_now t_date)
  /\ (forall message,
        reply_message (Rejected (ErrorObject message)) t_now t_date
        = {| id := (t_now + 2)%Z;
             text := Some (JString (str "Error: " ++ message));
             sender := bot; timestamp := t_date |})
  /\ reply_message (Rejected NotAnError) t_now t_date
     = {| id := (t_now + 2)%Z;
          text := Some (JString (str "Error: Failed to connect to bot."));
          sender := bot; timestamp := t_date |}.
Proof.
  split; [|split; [|split]].
  - intros r E. unfold reply_message, try_block. cbn [bind].
    rewrite E. reflexivity.
  - intros r e E P. unfold reply_message, try_block. cbn [bind].
    rewrite E, P. reflexivity.
  - reflexivity.
  - reflexivity.
Qed.

(* ------------------------------------------------------------------ *)
(** *** Responses that lack what a branch reads *)

Lemma read_of_read_optional (pv : jsval) (k : jsstring) (v : json) :
  read_optional pv k = Some v -> read pv k = Normal (Some v).
Proof.
  destruct pv as [p|]; [|discriminate].
  destruct p; simpl; intros E; try discriminate E.
  rewrite E. reflexivity.
Qed.

Lemma botText_result (data : json) :
  get data (str "type") = Some (JString (str "result")) ->
  botText data
  = (result <- read (get data (str "payload")) (str "result") ;;
     Normal (Some (JString (str "SQL Query Result:" ++ LF
                              ++ template (JSON_stringify gap2 result))))).
Proof.
  intros T.
  assert (Hn : data <> JNull) by (intros ->; discriminate).
  rewrite (botText_defined _ Hn), T. reflexivity.
Qed.

Lemma reply_message_parsed (r : Response) (data : json) (t_now t_date : Z) :
  ok r = true -> json_result r = Parsed data ->
  reply_message (Fulfilled r) t_now t_date
  = match botText data with
    | Normal bt =>
        {| id := (t_now + 1)%Z; text := bt; sender := bot;
           timestamp := t_date |}
    | Throw error =>
        {| id := (t_now + 2)%Z; text := Some (JString (error_text error));
           sender := bot; timestamp := t_date |}
    end.
Proof.
  intros E P. unfold reply_message, try_block. cbn [bind].
  rewrite E, P. reflexivity.
Qed.

(** X5: reading a response that lacks what a branch reads.  The body
    [null] throws on the read of [type]; an envelope of type [result]
    whose payload is missing or [null] throws on the read of [result]; in
    both cases the message shown is [Error: ] followed by the engine's
    message.  A payload that is there but holds no [result] does not
    throw: the heading is followed by [undefined].  A [chat_reply] whose
    payload is missing or [null] does not throw either, thanks to the
    optional read: the envelope is shown as JSON. *)
Theorem responses_lacking_fields :
  botText JNull = Throw (ErrorObject (cannot_read IsNull (str "type")))
  /\ (forall data,
        get data (str "type") = Some (JString (str "result")) ->
        get data (str "payload") = None ->
        botText data
        = Throw (ErrorObject (cannot_read IsUndefined (str "result"))))
  /\ (forall data,
        get data (str "type") = Some (JString (str "result")) ->
        get data (str "payload") = Some JNull ->
        botText data = Throw (ErrorObject (cannot_read IsNull (str "result"))))
  /\ (forall data payload,
        get data (str "type") = Some (JString (str "result")) ->
        get data (str "payload") = Some payload ->
        payload <> JNull ->
        get payload (str "result") = None ->
        botText data
        = Normal (Some (JString (str "SQL Query Result:" ++ LF
                                   ++ str "undefined"))))
  /\ (forall data,
        get data (str "type") = Some (JString (str "chat_reply")) ->
        get data (str "payload") = None
        \/ get data (str "payload") = Some JNull ->
        botText data = Normal (Some (JString (serialize gap2 [] data))))
  /\ (forall r data error t_now t_date,
        ok r = true -> json_result r = Parsed data ->
        botText data = Throw error ->
        reply_message (Fulfilled r) t_now t_date
        = {| id := (t_now + 2)%Z;
             text := Some (JString (error_text error));
             sender := bot; timestamp := t_date |}).
Proof.
  split; [reflexivity|]. split; [|split; [|split; [|split]]].
  - intros data T P. rewrite (botText_result _ T), P. reflexivity.
  - intros data T P. rewrite (botText_result _ T), P. reflexivity.
  - intros data payload T P N R.
    rewrite (botText_result _ T), P, (read_defined _ _ N), R. reflexivity.
  - intros data T P.
    assert (Hn : data <> JNull) by (intros ->; discriminate).
    apply botText_else; trivial.
    + destruct P as [-> | ->]; simpl; apply andb_false_r.
    + rewrite T. reflexivity.
  - intros r data error t_now t_date E P B.
    rewrite (reply_message_parsed _ _ _ _ E P), B. reflexivity.
Qed.

(* ------------------------------------------------------------------ *)
(** *** The text of a chat reply, whatever its type *)

(** X6: for an envelope of type [chat_reply] the test is on the truthiness
    of [payload.text], whatever kind of value it is: a truthy value (a
    non-empty string, a number other than zero, [true], an array, an
    object) becomes the message text as it is; a falsy or absent one
    ([null], [false], zero, the empty string, no [text], no payload) makes
    the client show the envelope as JSON. *)
Theorem chat_reply_text_by_truthiness (data : json) :
  get data (str "type") = Some (JString (str "chat_reply")) ->
  (forall v,
      read_optional (get data (str "payload")) (str "text") = Some v ->
      truthy (Some v) = true ->
      botText data = Normal (Some v))
  /\ (truthy (read_optional (get data (str "payload")) (str "text")) = false ->
      botText data = Normal (Some (JString (serialize gap2 [] data)))).
Proof.
  intros T.
  assert (Hn : data <> JNull) by (intros ->; discriminate).
  split.
  - intros v R Tv. rewrite (botText_defined _ Hn), T, R, Tv.
    rewrite (read_of_read_optional _ _ _ R). reflexivity.
  - intros F. apply botText_else; trivial.
    + rewrite F. apply andb_false_r.
    + rewrite T. reflexivity.
Qed.

(** X7: in its two recognized branches the client reads nothing of the
    response but [type] and [payload]: two responses that agree on these
    two properties give the same text, whatever their [id], [session_id]
    or other properties are.  The identifiers of a response are never
    compared with those of the request. *)
Theorem recognized_reply_reads_type_and_payload (data data' : json) :
  data <> JNull -> data' <> JNull ->
  get data' (str "type") = get data (str "type") ->
  get data' (str "payload") = get data (str "payload") ->
  strict_eq_string (get data (str "type")) (str "chat_reply")
    && truthy (read_optional (get data (str "payload")) (str "text")) = true
  \/ strict_eq_string (get data (str "type")) (str "result") = true ->
  botText data' = botText data.
Proof.
  intros N N' T P B.
  rewrite (botText_defined _ N), (botText_defined _ N'), T, P.
  destruct (strict_eq_string (get data (str "type")) (str "chat_reply")
            && truthy (read_optional (get data (str "payload")) (str "text")));
    trivial.
  destruct (strict_eq_string (get data (str "type")) (str "result"));
    trivial.
  destruct B; discriminate.
Qed.

(* ------------------------------------------------------------------ *)
(** *** What issues a request *)

Lemma step_not_submit (w : world) (e : event) :
  is_submit e = false -> snd (step w e) = [].
Proof.
  destruct e as [v|t1 t2 t3|k o t1 t2|t r]; simpl; try discriminate; trivial.
  destruct (nth_error (inflight w) k); reflexivity.
Qed.

Lemma step_submit_at_most_one (w : world) (e : event) :
  (List.length (snd (step w e)) <= if is_submit e then 1 else 0)%nat.
Proof.
  destruct (is_submit e) eqn:E.
  - destruct e as [v|t1 t2 t3|k o t1 t2|t r]; try discriminate. simpl.
    destruct (handleSendMessage_submit t1 t2 t3 (ui w)) as [s' [c|]];
      simpl; lia.
  - rewrite (step_not_submit _ _ E). simpl; lia.
Qed.

(** X8: only a submission issues a request, and at most one: typing, a
    clear and the settling of a request, failed or not, issue none, so a
    failed request is never sent again by the client; over a run the
    number of requests issued is at most the number of submissions. *)
Theorem only_submissions_send :
  (forall w e, is_submit e = false -> snd (step w e) = [])
  /\ (forall w evs,
        (List.length (snd (run w evs))
         <= List.length (filter is_submit evs))%nat).
Proof.
  split; [exact step_not_submit|].
  intros w evs. revert w. induction evs as [|e evs IH]; intros w.
  - simpl; lia.
  - rewrite run_cons. simpl snd. rewrite length_app.
    pose proof (step_submit_at_most_one w e) as S1.
    pose proof (IH (fst (step w e))) as S2.
    simpl filter. destruct (is_submit e); simpl; lia.
Qed.

(* ------------------------------------------------------------------ *)
(** *** A clear while a request is in flight *)

(** X9: a clear does not touch the loading flag, the input or the
    requests in flight.  Pressed while a request is loading, it leaves the
    component loading: submissions are still refused, the input stays
    disabled, and the view shows the welcome text together with the
    loading indicator. *)
Theorem clear_keeps_loading (w : world) (t_now : Z) (rnd : jsstring) :
  let w' := fst (step w (Clear t_now rnd)) in
  isLoading (ui w') = isLoading (ui w)
  /\ inputText (ui w') = inputText (ui w)
  /\ inflight w' = inflight w
  /\ (isLoading (ui w) = true ->
      (forall t_id t_date t_msg, step w' (Submit t_id t_date t_msg) = (w', []))
      /\ welcome (App (ui w')) = true
      /\ thinking (App (ui w')) = true
      /\ input_disabled (App (ui w')) = true
      /\ send_disabled (App (ui w')) = true).
Proof.
  intros w'. split; [reflexivity|]. split; [reflexivity|].
  split; [reflexivity|].
  intros L. split; [|subst w'; simpl; rewrite L; repeat split].
  intros t_id t_date t_msg. apply step_submit_refused.
  unfold guard. subst w'. simpl. rewrite L. apply orb_true_r.
Qed.

(** X10: a reply to a request sent before a clear lands in the list the
    clear has emptied: after a clear and the settling of a request that
    was in flight, the list holds the reply alone, under the new session
    identifier, and the loading flag is down. *)
Theorem reply_after_clear_stands_alone (w : world) (k : nat)
  (o : fetch_outcome) (t_clear t_now t_date : Z) (rnd : jsstring) :
  (k < List.length (inflight w))%nat ->
  run w [ Clear t_clear rnd; Settle k o t_now t_date ]
  = ({| ui := {| messages := [ reply_message o t_now t_date ];
                 inputText := inputText (ui w);
                 sessionId := newSessionId t_clear rnd;
                 isLoading := false |};
        inflight := remove_nth k (inflight w) |}, []).
Proof.
  intros L. rewrite !run_cons. simpl.
  destruct (nth_error (inflight w) k) eqn:E; [reflexivity|].
  apply nth_error_None in E. lia.
Qed.

(* ------------------------------------------------------------------ *)
(** *** Messages and requests, counted *)

Lemma from_users_app (l l' : list Message) :
  from_users (l ++ l') = from_users l ++ from_users l'.
Proof. apply filter_app. Qed.

Lemma from_bot_app (l l' : list Message) :
  from_bot (l ++ l') = from_bot l ++ from_bot l'.
Proof. apply filter_app. Qed.

Lemma step_counts (w : world) (e : event) :
  is_clear e = false ->
  let w' := fst (step w e) in
  List.length (from_users (messages (ui w')))
  = (List.length (from_users (messages (ui w)))
     + List.length (snd (step w e)))%nat
  /\ (List.length (from_bot (messages (ui w'))) + List.length (inflight w')
      = List.length (from_bot (messages (ui w))) + List.length (inflight w)
        + List.length (snd (step w e)))%nat.
Proof.
  destruct e as [v|t1 t2 t3|k o t1 t2|t r]; try discriminate; intros _ w'.
  - subst w'; simpl; lia.
  - subst w'. destruct (guard (ui w)) eqn:G.
    + rewrite (step_submit_refused _ _ _ _ G). simpl; lia.
    + rewrite (step_submit_accepted _ _ _ _ G). cbv zeta. simpl.
      rewrite from_users_app, from_bot_app, !length_app. simpl. lia.
  - subst w'. simpl. destruct (nth_error (inflight w) k) eqn:E; simpl; [|lia].
    rewrite from_users_app, from_bot_app, !length_app,
      (remove_nth_length _ _ _ E).
    unfold from_users, from_bot. simpl. unfold is_user.
    rewrite reply_message_bot. simpl.
    assert (List.length (inflight w) <> 0%nat)
      by (destruct (inflight w); [destruct k|]; discriminate).
    lia.
Qed.

(** X11: over a stretch of events without a clear, the list gains one user
    message for each request issued, and one bot message for each request
    that has settled: the bot messages gained and the requests still in
    flight add up to the requests issued and those that were in flight at
    the start. *)
Theorem messages_match_requests (w : world) (evs : list event) :
  forallb (fun e => negb (is_clear e)) evs = true ->
  let w' := fst (run w evs) in
  List.length (from_users (messages (ui w')))
  = (List.length (from_users (messages (ui w)))
     + List.length (snd (run w evs)))%nat
  /\ (List.length (from_bot (messages (ui w'))) + List.length (inflight w')
      = List.length (from_bot (messages (ui w))) + List.length (inflight w)
        + List.length (snd (run w evs)))%nat.
Proof.
  revert w. induction evs as [|e evs IH]; intros w F.
  - simpl; lia.
  - simpl in F. apply andb_true_iff in F. destruct F as [Fe F].
    apply negb_true_iff in Fe.
    pose proof (step_counts w e Fe) as [S1 S2].
    pose proof (IH (fst (step w e)) F) as [I1 I2].
    rewrite run_cons. cbv zeta in *. simpl fst. simpl snd.
    rewrite length_app. lia.
Qed.

(* ------------------------------------------------------------------ *)
(** *** Message ids as keys *)

Lemma reply_message_id (o : fetch_outcome) (t_now t_date : Z) :
  (t_now < id (reply_message o t_now t_date) <= t_now + 2)%Z.
Proof. unfold reply_message. destruct (try_block o); simpl; lia. Qed.

Lemma StronglySorted_snoc (l : list Z) (y : Z) :
  StronglySorted Z.lt l -> Forall (fun x => (x < y)%Z) l ->
  StronglySorted Z.lt (l ++ [y]).
Proof.
  induction 1 as [|x l S IH F]; intros B; simpl.
  - repeat constructor.
  - inversion B as [|? ? Bx Bl]; subst. constructor; [apply IH, Bl|].
    apply Forall_app. split; [exact F | constructor; [exact Bx | constructor]].
Qed.

Lemma StronglySorted_NoDup (l : list Z) :
  StronglySorted Z.lt l -> NoDup l.
Proof.
  induction 1 as [|x l S IH F]; constructor; trivial.
  intros I. rewrite Forall_forall in F. specialize (F _ I). lia.
Qed.

Lemma ids_ascend_snoc (last t : Z) (l : list Message) (m : Message) :
  ids_ascend last l -> (last + 2 < id m <= t + 2)%Z -> (last <= t)%Z ->
  ids_ascend t (l ++ [m]).
Proof.
  intros [S B] I L. split.
  - rewrite map_app. apply StronglySorted_snoc; trivial.
    rewrite Forall_map. eapply Forall_impl; [|exact B].
    simpl. intros a Ha. lia.
  - apply Forall_app. split.
    + eapply Forall_impl; [|exact B]. simpl. intros a Ha. lia.
    + constructor; [lia | constructor].
Qed.

Lemma ids_ascend_weaken (last t : Z) (l : list Message) :
  ids_ascend last l -> (last <= t)%Z -> ids_ascend t l.
Proof.
  intros [S B] L. split; trivial.
  eapply Forall_impl; [|exact B]. simpl. intros a Ha. lia.
Qed.

Lemma run_ids_ascend (evs : list event) :
  forall (last : Z) (w : world),
    ids_ascend last (messages (ui w)) ->
    spaced last evs = true ->
    exists last', ids_ascend last' (messages (ui (fst (run w evs)))).
Proof.
  induction evs as [|e evs IH]; intros last w A S.
  - exists last. exact A.
  - rewrite run_cons. simpl fst.
    destruct e as [v|t1 t2 t3|k o t1 t2|t r]; simpl in S.
    + apply (IH last); [exact A | exact S].
    + apply andb_true_iff in S. destruct S as [St S].
      apply Z.ltb_lt in St. apply (IH t1); [|exact S].
      destruct (guard (ui w)) eqn:G.
      * rewrite (step_submit_refused _ _ _ _ G). simpl.
        apply (ids_ascend_weaken last); [exact A | lia].
      * rewrite (step_submit_accepted _ _ _ _ G). cbv zeta. simpl.
        apply (ids_ascend_snoc last); [exact A | simpl; lia | lia].
    + apply andb_true_iff in S. destruct S as [St S].
      apply Z.ltb_lt in St. apply (IH t1); [|exact S].
      simpl. destruct (nth_error (inflight w) k); simpl.
      * pose proof (reply_message_id o t1 t2).
        apply (ids_ascend_snoc last); [exact A | lia | lia].
      * apply (ids_ascend_weaken last); [exact A | lia].
    + apply (IH last); [|exact S]. simpl. split; constructor.
Qed.

(** X12: when the clock readings that become message ids lie more than two
    apart, the offsets added to them for replies cannot make two ids meet:
    the ids increase along the list, and the keys of the bubbles are
    pairwise different. *)
Theorem spaced_clock_gives_distinct_keys (last : Z) (w : world)
  (evs : list event) :
  ids_ascend last (messages (ui w)) ->
  spaced last evs = true ->
  StronglySorted Z.lt (map id (messages (ui (fst (run w evs)))))
  /\ NoDup (map key (bubbles (App (ui (fst (run w evs)))))).
Proof.
  intros A S. destruct (run_ids_ascend evs last w A S) as [last' [So _]].
  split; [exact So|].
  simpl. rewrite map_map. simpl. apply StronglySorted_NoDup, So.
Qed.

(* ------------------------------------------------------------------ *)
(** *** The session label *)

Lemma slice_last_suffix (n : nat) (s : jsstring) :
  firstn (List.length s - n) s ++ slice_last n s = s
  /\ List.length (slice_last n s) = Nat.min n (List.length s).
Proof.
  unfold slice_last. split; [apply firstn_skipn|].
  rewrite length_skipn. lia.
Qed.

Lemma slice_last_app (n : nat) (a b : jsstring) :
  (n <= List.length b)%nat -> slice_last n (a ++ b) = slice_last n b.
Proof.
  intros L. unfold slice_last. rewrite length_app, skipn_app.
  rewrite skipn_all2 by lia. simpl. f_equal. lia.
Qed.

(** X13: the header shows the last eight code units of the session
    identifier, or all of it when it is shorter; for a minted identifier
    whose random part has at least eight code units these are the last
    eight of the random part, so that nothing of the time stamp is shown.
    After a clear the label is that of the new identifier. *)
Theorem session_label_is_tail :
  (forall s,
      firstn (List.length (sessionId s) - 8) (sessionId s)
        ++ session_label (App s) = sessionId s
      /\ List.length (session_label (App s))
         = Nat.min 8 (List.length (sessionId s)))
  /\ (forall now rnd,
        (8 <= List.length rnd)%nat ->
        slice_last 8 (newSessionId now rnd) = slice_last 8 rnd)
  /\ (forall w t_now rnd,
        session_label (App (ui (fst (step w (Clear t_now rnd)))))
        = slice_last 8 (newSessionId t_now rnd)).
Proof.
  split; [|split].
  - intros s. apply slice_last_suffix.
  - intros now rnd L. unfold newSessionId.
    rewrite !app_assoc. apply slice_last_app, L.
  - reflexivity.
Qed.

(* ------------------------------------------------------------------ *)
(** *** Turns, whatever the clears *)

Lemma takes_turns_snoc (l : list Message) (m : Message) :
  takes_turns l = true ->
  (forall l0 x, l = l0 ++ [x] -> is_user x = negb (is_user m)) ->
  takes_turns (l ++ [m]) = true.
Proof.
  intros T L. destruct l as [|a l]; simpl.
  - rewrite eqb_reflx. reflexivity.
  - change (alternates (is_user a) ((a :: l) ++ [m]) = true).
    change (alternates (is_user a) (a :: l) = true) in T.
    rewrite alternates_snoc, T. cbn [andb].
    destruct (exists_last (l := a :: l)) as (l0 & x & E); [discriminate|].
    specialize (L _ _ E). rewrite E in T. rewrite alternates_snoc in T.
    apply andb_true_iff in T. destruct T as [_ T]. apply eqb_prop in T.
    rewrite E, length_app, Nat.add_1_r, Nat.even_succ, <- Nat.negb_even.
    rewrite L in T.
    destruct (Nat.even (List.length l0)), (is_user a), (is_user m);
      simpl in *; congruence.
Qed.

Lemma step_in_turns (w : world) (e : event) :
  in_turns w -> in_turns (fst (step w e)).
Proof.
  intros (I & T & L). split; [apply step_one_in_flight, I|].
  destruct e as [v|t1 t2 t3|k o t1 t2|t r].
  - simpl. split; assumption.
  - destruct (guard (ui w)) eqn:G.
    + rewrite (step_submit_refused _ _ _ _ G). split; assumption.
    + rewrite (step_submit_accepted _ _ _ _ G). cbv zeta. simpl.
      apply guard_false in G. destruct G as [_ G]. split.
      * apply takes_turns_snoc; [exact T|].
        intros l0 x E. rewrite (L _ _ E), G. reflexivity.
      * intros l x E. apply app_inj_tail in E. destruct E as [_ <-].
        reflexivity.
  - simpl. destruct (nth_error (inflight w) k) eqn:E; simpl;
      [|split; assumption].
    assert (Ld : isLoading (ui w) = true).
    { apply (one_in_flight_loading _ I). intros N. rewrite N in E.
      destruct k; discriminate. }
    assert (B : is_user (reply_message o t1 t2) = false)
      by (unfold is_user; rewrite reply_message_bot; reflexivity).
    split.
    + apply takes_turns_snoc; [exact T|].
      intros l0 x E0. rewrite (L _ _ E0), Ld, B. reflexivity.
    + intros l x E0. apply app_inj_tail in E0. destruct E0 as [_ <-].
      exact B.
  - simpl. split; [reflexivity|].
    intros l x E. destruct l; discriminate.
Qed.

(** X14: in every reachable world, whether or not a clear came while a
    request was in flight, no two neighbouring messages have the same
    sender, and the last message is the user's exactly when a request is
    loading. *)
Theorem neighbours_take_turns (now : Z) (rnd : jsstring) (evs : list event) :
  let w := fst (run (start now rnd) evs) in
  takes_turns (messages (ui w)) = true
  /\ forall l x, messages (ui w) = l ++ [x] -> is_user x = isLoading (ui w).
Proof.
  intros w.
  assert (T : in_turns w).
  { apply run_preserves; [apply step_in_turns|].
    split; [apply start_one_in_flight|]. split; [reflexivity|].
    intros l x E. destruct l; discriminate. }
  destruct T as (_ & T & L). split; assumption.
Qed.

(* ------------------------------------------------------------------ *)
(** *** Every message has a text *)

Lemma botText_null :
  botText JNull = Throw (ErrorObject (cannot_read IsNull (str "type"))).
Proof. reflexivity. Qed.

Lemma botText_some (data : json) (bt : jsval) :
  botText data = Normal bt -> bt <> None.
Proof.
  assert (D : data = JNull \/ data <> JNull)
    by (destruct data; [left; reflexivity | right; discriminate ..]).
  destruct D as [-> | N]; [rewrite botText_null; discriminate|].
  rewrite (botText_defined _ N).
  destruct (strict_eq_string (get data (str "type")) (str "chat_reply")
            && truthy (read_optional (get data (str "payload")) (str "text")))
    eqn:C.
  - apply andb_true_iff in C. destruct C as [_ C].
    destruct (read_optional (get data (str "payload")) (str "text"))
      as [v|] eqn:R; [|discriminate].
    rewrite (read_of_read_optional _ _ _ R). intros E. injection E as <-.
    discriminate.
  - destruct (strict_eq_string (get data (str "type")) (str "result")).
    + destruct (read (get data (str "payload")) (str "result"));
        simpl; intros E; [injection E as <-|]; discriminate.
    + intros E. injection E as <-. discriminate.
Qed.

Lemma reply_message_has_text (o : fetch_outcome) (t_now t_date : Z) :
  has_text (reply_message o t_now t_date).
Proof.
  unfold has_text, is_user. rewrite reply_message_bot.
  unfold reply_message. destruct (try_block o) as [bt|e] eqn:E; simpl.
  - unfold try_block in E. destruct o as [r|e0]; simpl in E; [|discriminate].
    destruct (ok r); simpl in E; [|discriminate].
    destruct (json_result r); simpl in E; [|discriminate].
    apply (botText_some _ _ E).
  - discriminate.
Qed.

Lemma step_has_text (w : world) (e : event) :
  Forall has_text (messages (ui w)) ->
  Forall has_text (messages (ui (fst (step w e)))).
Proof.
  intros F. destruct e as [v|t1 t2 t3|k o t1 t2|t r].
  - exact F.
  - destruct (guard (ui w)) eqn:G.
    + rewrite (step_submit_refused _ _ _ _ G). exact F.
    + rewrite (step_submit_accepted _ _ _ _ G). cbv zeta. simpl.
      apply Forall_app. split; [exact F|]. constructor; [|constructor].
      unfold has_text. simpl. eexists. split; [reflexivity|].
      rewrite guard_nonblank in G. apply orb_false_iff in G.
      destruct G as [G _]. apply negb_false_iff in G. exact G.
  - simpl. destruct (nth_error (inflight w) k); simpl; [|exact F].
    apply Forall_app. split; [exact F|].
    constructor; [apply reply_message_has_text | constructor].
  - constructor.
Qed.

(** X15: in every reachable world each message of the user holds a string
    that is not blank, and no message of the bot has an undefined text,
    whatever the response. *)
Theorem every_message_has_text (now : Z) (rnd : jsstring) (evs : list event) :
  Forall has_text (messages (ui (fst (run (start now rnd) evs)))).
Proof.
  apply (run_preserves (fun w => Forall has_text (messages (ui w)))).
  - apply step_has_text.
  - constructor.
Qed.

End FurtherProperties.

(* ================================================================== *)
(** * Concrete runs *)
(* ================================================================== *)

#[local] Existing Instance Z_host.
#[local] Existing Instance Z_reader.

(** Against C3 as stated: a [chat_reply] whose text is the empty string
    is not shown as that text: the truthiness test fails and the envelope is shown as JSON. *)
Lemma empty_chat_reply_shown_as_json :
  get empty_reply (str "type") = Some (JString (str "chat_reply"))
  /\ read_optional (get empty_reply (str "payload")) (str "text")
     = Some (JString [])
  /\ botText empty_reply
     = Normal (Some (JString (serialize gap2 [] empty_reply)))
  /\ botText empty_reply <> Normal (Some (JString [])).
Proof.
  split; [reflexivity|]. split; [reflexivity|]. split; [reflexivity|].
  vm_compute. discriminate.
Qed.

(** Against C5 as stated: pressing CLEAR after an exchange issues no
    request at all. *)
Lemma clear_issues_no_request :
  let w := fst (run first_world one_exchange) in
  snd (step w (Clear 30 (str "z9y8x7w6v"))) = []
  /\ ~ (exists call, In call (snd (step w (Clear 30 (str "z9y8x7w6v")))))
  /\ snd (run first_world (one_exchange ++ [Clear 30 (str "z9y8x7w6v")]))
     = [ chat_fetch (str "msg-12") (newSessionId 1 (str "a1b2c3d4e"))
           (str "hi") ].
Proof.
  split; [reflexivity|]. split; [|reflexivity].
  intros [call I]. exact I.
Qed.

(** Against C10 as stated: CLEAR pressed while the request is in flight: the answer lands in the
    emptied list, which then starts with a bot message and has length one
    although nothing is in flight. *)
Lemma clear_in_flight_breaks_alternation :
  let w := fst (run first_world clear_in_flight) in
  inflight w = []
  /\ isLoading (ui w) = false
  /\ map sender (messages (ui w)) = [bot]
  /\ Nat.even (List.length (messages (ui w))) = false
  /\ alternates true (messages (ui w)) = false.
Proof. repeat split. Qed.



Lemma chat_reply_text_witness :
  botText hello_reply = Normal (Some (JString (str "hello"))).
Proof.
  apply (chat_reply_text_shown hello_reply
           (JObject [ (str "text", JString (str "hello")) ]) (str "hello"));
    [reflexivity | reflexivity | reflexivity | discriminate].
Defined.



Lemma send_ends_witness :
  exists t,
    text (reply_message (H := Z_host)
            (Fulfilled {| status := 500; json_result := Parsed hello_reply |})
            5 6)
    = Some (JString t)
    /\ startsWith (str "Error:") t = true.
Proof.
  destruct (proj2 (send_ends_with_one_bot_message (H := Z_host))
              (Fulfilled {| status := 500; json_result := Parsed hello_reply |})
              5%Z 6%Z initial_state) as (_ & m & M & _ & E).
  simpl in M. injection M as <-.
  apply E. left. reflexivity.
Defined.


(** Against C4 as stated: a clear at the clock reading and with the random
    suffix of the mount gives the identifier that was there before, not a
    fresh one. *)
Lemma clear_can_repeat_identifier :
  sessionId (ui (fst (step first_world (Clear 1 (str "a1b2c3d4e")))))
  = sessionId (ui first_world)
  /\ sessionId (ui first_world) = str "session-1-a1b2c3d4e".
Proof. split; reflexivity. Qed.

Lemma session_id_witness :
  sessionId (ui (fst (run first_world one_exchange)))
  = str "session-1-a1b2c3d4e"
  /\ In hi_call (snd (run first_world one_exchange))
  /\ exists env,
       JSON_parse hi_body = Some env
       /\ get env (str "session_id")
          = Some (JString (str "session-1-a1b2c3d4e")).
Proof.
  assert (I : In hi_call (snd (run first_world one_exchange)))
    by (left; reflexivity).
  destruct (proj2 (proj2 (proj2 (session_id_minted_by_client
                                   (H := Z_host) (R := Z_reader))))
              first_world one_exchange eq_refl) as [K C].
  split; [exact K|]. split; [exact I|].
  exact (proj2 (proj2 (C hi_call I))).
Defined.

Lemma clear_is_local_witness :
  let call := chat_fetch (str "msg-12") (newSessionId 30 (str "z9y8x7w6v"))
                (str "hi") in
  In call (snd (run (fst (step first_world (Clear 30 (str "z9y8x7w6v"))))
                  one_exchange))
  /\ exists uniqueId currentInput,
       call = chat_fetch uniqueId (newSessionId 30 (str "z9y8x7w6v"))
                currentInput.
Proof.
  cbv zeta.
  assert (I : In (chat_fetch (str "msg-12")
                    (newSessionId 30 (str "z9y8x7w6v")) (str "hi"))
                (snd (run (fst (step first_world (Clear 30 (str "z9y8x7w6v"))))
                        one_exchange)))
    by (left; reflexivity).
  split; [exact I|].
  destruct (clear_is_local first_world 30%Z (str "z9y8x7w6v")) as (_ & _ & _ & K).
  exact (K one_exchange _ eq_refl I).
Defined.



Lemma one_request_witness :
  let w := fst (run first_world [ Change (str "hi"); Submit 10 11 12 ]) in
  isLoading (ui w) = true
  /\ step w (Submit 13 14 15) = (w, []).
Proof.
  intros w.
  assert (L : isLoading (ui w) = true) by reflexivity.
  split; [exact L|].
  exact (proj1 (proj2 (proj2 (at_most_one_request_in_flight 1%Z
                                (str "a1b2c3d4e")
                                [ Change (str "hi"); Submit 10 11 12 ])) L)
           13%Z 14%Z 15%Z).
Defined.

Lemma messages_alternate_witness :
  clears_when_idle first_world
    (one_exchange ++ [Clear 30 (str "z9y8x7w6v")] ++ one_exchange) = true
  /\ alternates true
       (messages (ui (fst (run first_world
          (one_exchange ++ [Clear 30 (str "z9y8x7w6v")] ++ one_exchange)))))
     = true.
Proof.
  assert (C : clears_when_idle first_world
                (one_exchange ++ [Clear 30 (str "z9y8x7w6v")] ++ one_exchange)
              = true) by reflexivity.
  split; [exact C|].
  destruct (messages_alternate_unless_cleared_in_flight (H := Z_host))
    as (_ & _ & _ & A).
  exact (proj1 (A 1%Z (str "a1b2c3d4e") _ C)).
Defined.

(* ------------------------------------------------------------------ *)
(** *** Runs for the further properties *)

Lemma typed_text_witness :
  run first_world [ Change (str " hi "); Submit 10 11 12 ]
  = (let call := chat_fetch (str "msg-12") (newSessionId 1 (str "a1b2c3d4e"))
                   (str " hi ") in
     ({| ui := {| messages := [ {| id := 10; text := Some (JString (str " hi "));
                                   sender := user; timestamp := 11 |} ];
                  inputText := [];
                  sessionId := newSessionId 1 (str "a1b2c3d4e");
                  isLoading := true |};
         inflight := [call] |}, [call])).
Proof.
  exact (typed_text_is_sent_and_shown first_world (str " hi ") 10 11 12
           eq_refl eq_refl).
Defined.

Lemma number_text_witness :
  botText number_reply = Normal (Some (JNumber (H := Z_host) 5%Z)).
Proof.
  exact (proj1 (chat_reply_text_by_truthiness number_reply eq_refl)
           (JNumber (H := Z_host) 5%Z) eq_refl eq_refl).
Defined.

Lemma other_identifiers_witness :
  botText count_result_elsewhere = botText count_result.
Proof.
  apply (recognized_reply_reads_type_and_payload count_result
           count_result_elsewhere);
    [discriminate | discriminate | reflexivity | reflexivity
    | right; reflexivity].
Defined.

Lemma reply_after_clear_witness :
  messages (ui (fst (run waiting_world
                       [ Clear 15 (str "k3j2h1g0f"); Settle 0 ok_hello 20 21 ])))
  = [ {| id := 21; text := Some (JString (str "hello")); sender := bot;
         timestamp := 21 |} ].
Proof.
  rewrite (reply_after_clear_stands_alone waiting_world 0 ok_hello 15 20 21
             (str "k3j2h1g0f")); [reflexivity|].
  apply Nat.lt_0_1.
Defined.

Lemma messages_match_requests_witness :
  List.length (from_users (messages (ui (fst (run first_world one_exchange)))))
  = 1%nat
  /\ List.length (from_bot (messages (ui (fst (run first_world one_exchange)))))
     = 1%nat.
Proof.
  destruct (messages_match_requests first_world one_exchange eq_refl)
    as [U B].
  split; [exact U | exact B].
Defined.

Lemma distinct_keys_witness :
  NoDup (map key (bubbles (App (ui (fst (run first_world
                                           (one_exchange
                                              ++ [ Change (str "yo");
                                                   Submit 30 31 32 ]))))))).
Proof.
  apply (spaced_clock_gives_distinct_keys 1 first_world
           (one_exchange ++ [ Change (str "yo"); Submit 30 31 32 ])).
  - split; constructor.
  - reflexivity.
Defined.
